(** * react-griditty: GridLayout gestures and useLayoutState

    A shallow embedding of the pointer-gesture logic of [GridLayout]
    (both the fluid, container-relative component and the fixed-pixel
    component) and of the [useLayoutState] hook (both revisions found in
    the repository), followed by the properties of the coordinate
    transform, of the drag / resize state machine and of the snapshot
    synchronisation.

    Numbers.  A JavaScript number is modelled by [number]: the two
    infinities, NaN, and the finite values as exact rationals.  Finite
    arithmetic is exact, i.e. binary64 rounding and overflow are
    abstracted away, and zero carries no sign, so [x / 0] follows the
    rules of a division by [+0].  Everything the handlers compute from
    division by zero (Infinity, NaN) is kept, because the clamps built
    from [Math.max] / [Math.min] let NaN through.  The properties of
    the coordinate transform and of the rendered boxes are orders, bounds
    and integer results that a correctly rounded quotient, product or sum
    yields as well: where a pixel value has to fall into a rounding zone,
    the zone stops a sixteenth of a cell short of the open half-cell
    boundary.

    React.  What the component reads from outside at one event (props,
    snapshot, the container's bounding rectangle) is the record [Env].
    [step] and [run] describe the component when it has re-rendered
    (handlers re-created, effects re-run) before every event, so that
    each handler sees the current [drag] / [resize] state and the current
    snapshot; the caller supplies one [Env] per event.  [timedStep] and
    [timedRun] describe it for renders and events in any order: the
    window listeners are those registered by the effects of the last
    render and read the [drag] / [resize] of that render, while the
    state setters write the state cells at once. *)

From Stdlib Require Import QArith Qround Qminmax Lqa ZArith Lia List String Bool.
Import ListNotations.

Local Open Scope Q_scope.

(* ================================================================== *)
(** ** JavaScript numbers *)

Inductive number : Type :=
| NaN
| PosInf
| NegInf
| Num (q : Q).

Module JS.

(** [a - b] *)
Definition sub (a b : number) : number :=
  match a, b with
  | NaN, _ => NaN
  | _, NaN => NaN
  | PosInf, PosInf => NaN
  | NegInf, NegInf => NaN
  | PosInf, _ => PosInf
  | NegInf, _ => NegInf
  | Num _, PosInf => NegInf
  | Num _, NegInf => PosInf
  | Num x, Num y => Num (x - y)
  end.

(** An infinity ([+Infinity] when [positive]) times the finite [q]: the
    sign follows [q], and the product with zero is NaN. *)
Definition inf_times (positive : bool) (q : Q) : number :=
  match q ?= 0 with
  | Eq => NaN
  | Gt => if positive then PosInf else NegInf
  | Lt => if positive then NegInf else PosInf
  end.

(** [a * b] *)
Definition mul (a b : number) : number :=
  match a, b with
  | NaN, _ => NaN
  | _, NaN => NaN
  | PosInf, PosInf => PosInf
  | PosInf, NegInf => NegInf
  | NegInf, PosInf => NegInf
  | NegInf, NegInf => PosInf
  | PosInf, Num y => inf_times true y
  | NegInf, Num y => inf_times false y
  | Num x, PosInf => inf_times true x
  | Num x, NegInf => inf_times false x
  | Num x, Num y => Num (x * y)
  end.

(** [a / b]; a zero divisor is [+0]. *)
Definition div (a b : number) : number :=
  match a, b with
  | NaN, _ => NaN
  | _, NaN => NaN
  | PosInf, Num y => if Qle_bool 0 y then PosInf else NegInf
  | NegInf, Num y => if Qle_bool 0 y then NegInf else PosInf
  | PosInf, _ => NaN
  | NegInf, _ => NaN
  | Num _, PosInf => Num 0
  | Num _, NegInf => Num 0
  | Num x, Num y =>
      if Qeq_bool y 0 then
        match x ?= 0 with
        | Eq => NaN
        | Gt => PosInf
        | Lt => NegInf
        end
      else Num (x / y)
  end.

(** [a > b] *)
Definition gt (a b : number) : bool :=
  match a, b with
  | NaN, _ => false
  | _, NaN => false
  | PosInf, PosInf => false
  | PosInf, _ => true
  | NegInf, _ => false
  | Num _, PosInf => false
  | Num _, NegInf => true
  | Num x, Num y => negb (Qle_bool x y)
  end.

(** The remaining operations are not called by the component; the
    properties below are stated with them. *)

(** [a + b] *)
Definition add (a b : number) : number :=
  match a, b with
  | NaN, _ => NaN
  | _, NaN => NaN
  | PosInf, NegInf => NaN
  | NegInf, PosInf => NaN
  | PosInf, _ => PosInf
  | NegInf, _ => NegInf
  | Num _, PosInf => PosInf
  | Num _, NegInf => NegInf
  | Num x, Num y => Num (x + y)
  end.

(** [a <= b] *)
Definition le (a b : number) : bool :=
  match a, b with
  | NaN, _ => false
  | _, NaN => false
  | NegInf, _ => true
  | _, PosInf => true
  | PosInf, _ => false
  | Num _, NegInf => false
  | Num x, Num y => Qle_bool x y
  end.

(** [a === b] *)
Definition eqb (a b : number) : bool :=
  match a, b with
  | PosInf, PosInf => true
  | NegInf, NegInf => true
  | Num x, Num y => Qeq_bool x y
  | _, _ => false
  end.

(** [Number.isFinite(a)] *)
Definition isFinite (a : number) : bool :=
  match a with
  | Num _ => true
  | _ => false
  end.

(** [Number.isInteger(a)] *)
Definition isInteger (a : number) : bool :=
  match a with
  | Num x => Qeq_bool x (inject_Z (Qfloor x))
  | _ => false
  end.

End JS.

Module Math.

(** [Math.max(a, b)]: NaN if either argument is NaN. *)
Definition max (a b : number) : number :=
  match a, b with
  | NaN, _ => NaN
  | _, NaN => NaN
  | PosInf, _ => PosInf
  | _, PosInf => PosInf
  | NegInf, _ => b
  | _, NegInf => a
  | Num x, Num y => if Qle_bool x y then b else a
  end.

(** [Math.min(a, b)]: NaN if either argument is NaN. *)
Definition min (a b : number) : number :=
  match a, b with
  | NaN, _ => NaN
  | _, NaN => NaN
  | NegInf, _ => NegInf
  | _, NegInf => NegInf
  | PosInf, _ => b
  | _, PosInf => a
  | Num x, Num y => if Qle_bool x y then a else b
  end.

(** [Math.round(a)]: the nearest integer, halves towards [+Infinity];
    NaN and the infinities are returned unchanged. *)
Definition round (a : number) : number :=
  match a with
  | Num x => Num (inject_Z (Qfloor (x + (1 # 2))))
  | _ => a
  end.

(** [Math.max(...l)]: [-Infinity] for no argument, NaN as soon as one
    argument is NaN. *)
Definition maxOf (l : list number) : number :=
  fold_left max l NegInf.

End Math.

(** Integer literals and integer-valued numbers. *)
Definition int (z : Z) : number := Num (inject_Z z).

(* ================================================================== *)
(** ** Data model ([@dashboardity/layout-store] types, DOM values) *)

Record GridItem : Type := mkGridItem {
  id : string;
  x : number;
  y : number;
  w : number;
  h : number
}.

Record LayoutState : Type := mkLayoutState {
  items : list GridItem;
  columns : number
}.

(** The two actions [GridLayout] dispatches. *)
Inductive LayoutAction : Type :=
| Move (id : string) (x y : number)      (* { type: "move", id, x, y } *)
| Resize (id : string) (w h : number).   (* { type: "resize", id, w, h } *)

Record DOMRect : Type := mkDOMRect {
  left : number;
  top : number;
  width : number;
  height : number
}.

Record MouseEvent : Type := mkMouseEvent {
  button : Z;
  clientX : number;
  clientY : number
}.

(** [drag] and [resize] component state. *)
Record DragState : Type := mkDrag {
  drag_id : string;
  startX : number;
  startY : number;
  gridX : number;
  gridY : number
}.

Record ResizeState : Type := mkResize {
  resize_id : string;
  startW : number;
  startH : number;
  startPixelX : number;
  startPixelY : number
}.

Record GestureState : Type := mkGesture {
  drag : option DragState;
  resize : option ResizeState
}.

Definition Idle : GestureState := mkGesture None None.

(** What one event handler invocation reads from outside the gesture
    state: the props, the snapshot returned by [useLayoutState], and
    [containerRef.current] ([None] when null, otherwise the rectangle
    [getBoundingClientRect()] returns). *)
Record Env : Type := mkEnv {
  cellWidth : number;
  cellHeight : number;
  columnsProp : option number;
  draggable : bool;
  resizable : bool;
  snapshot : LayoutState;
  containerRef : option DOMRect
}.

(** [items.find((i) => i.id === target)] *)
Definition findItem (target : string) (l : list GridItem) : option GridItem :=
  find (fun i => String.eqb (id i) target) l.

(* ================================================================== *)
(** ** Handlers shared verbatim by both components *)

(** [handleMoveEnd]: dispatches the preview and clears [drag]. *)
Definition handleMoveEnd (st : GestureState) : GestureState * list LayoutAction :=
  match drag st with
  | Some d =>
      (mkGesture None (resize st), [Move (drag_id d) (gridX d) (gridY d)])
  | None => (st, [])
  end.

(** [handleResizeEnd]: [setResize(null)]. *)
Definition handleResizeEnd (st : GestureState) : GestureState :=
  mkGesture (drag st) None.

(** [onPanelMouseDown] *)
Definition onPanelMouseDown (env : Env) (e : MouseEvent) (item : GridItem)
  (st : GestureState) : GestureState :=
  if negb (draggable env) || negb (button e =? 0)%Z then st
  else
    mkGesture
      (Some (mkDrag (id item) (clientX e) (clientY e) (x item) (y item)))
      (resize st).

(** [onResizeHandleMouseDown]; [stopPropagation] keeps the panel's own
    handler from running. *)
Definition onResizeHandleMouseDown (env : Env) (e : MouseEvent) (item : GridItem)
  (st : GestureState) : GestureState :=
  if negb (resizable env) || negb (button e =? 0)%Z then st
  else
    mkGesture (drag st)
      (Some (mkResize (id item) (w item) (h item) (clientX e) (clientY e))).

(** [setDrag((prev) => (prev ? { ...prev, gridX, gridY } : null))] *)
Definition setPreview (gx gy : number) (st : GestureState) : GestureState :=
  match drag st with
  | Some prev =>
      mkGesture
        (Some (mkDrag (drag_id prev) (startX prev) (startY prev) gx gy))
        (resize st)
  | None => mkGesture None (resize st)
  end.

(** [pixelToGridY] and [pixelToGridH] have the same text in both
    components. *)
Definition pixelToGridY (cellHeight pixelY : number) : number :=
  Math.max (int 0) (Math.round (JS.div pixelY cellHeight)).

Definition pixelToGridH (cellHeight pixelH : number) : number :=
  Math.max (int 1) (Math.round (JS.div pixelH cellHeight)).

(** Pointer events the component reacts to. *)
Inductive Event : Type :=
| PanelMouseDown (e : MouseEvent) (item : GridItem)
| ResizeHandleMouseDown (e : MouseEvent) (item : GridItem)
| MouseMove (e : MouseEvent)     (* window "mousemove" *)
| MouseUp.                       (* window "mouseup" *)

(* ================================================================== *)
(** ** What both components render *)

(** [toPx(n)] is the string of [n] followed by [px], [pct(n)] the string
    of [n] followed by the percent sign; the strings are kept as the
    number and its unit. *)
Inductive CssLength : Type :=
| Px (n : number)
| Pct (n : number).

Definition lengthValue (l : CssLength) : number :=
  match l with
  | Px n => n
  | Pct n => n
  end.

Inductive Cursor : Type := grab | grabbing | defaultCursor.

Inductive BoxKind : Type := Placeholder | Panel.

(** One [role="gridcell"] element of the rendered tree: the dashed
    placeholder of the dragged item (no pointer events, no handle) or the
    panel of an item, with the style values that depend on the state. *)
Record Box : Type := mkBox {
  kind : BoxKind;
  key : string;
  cssLeft : CssLength;
  cssTop : CssLength;
  cssWidth : CssLength;
  cssHeight : CssLength;
  cursor : option Cursor;
  opacity : option Q;
  zIndex : option Z;
  hasResizeHandle : bool
}.

(** [Boolean(drag && item.id === drag.id)] *)
Definition isDragging (st : GestureState) (item : GridItem) : bool :=
  match drag st with
  | Some d => String.eqb (id item) (drag_id d)
  | None => false
  end.

(** [totalH], the same text in both components. *)
Definition totalH (env : Env) : number :=
  match items (snapshot env) with
  | [] => int 0
  | its =>
      JS.mul (Math.maxOf (map (fun i => JS.add (y i) (h i)) its))
             (cellHeight env)
  end.

(** The panel's [cursor], [opacity] and [zIndex]. *)
Definition panelCursor (env : Env) (st : GestureState) (item : GridItem)
  : Cursor :=
  if draggable env then
    if isDragging st item then grabbing else grab
  else defaultCursor.

Definition panelOpacity (st : GestureState) (item : GridItem) : Q :=
  if isDragging st item then 85 # 100 else 1.

Definition panelZIndex (st : GestureState) (item : GridItem) : Z :=
  if isDragging st item then 2%Z else 1%Z.

(** [displayX] and [displayY]: the preview while the item is dragged. *)
Definition displayX (st : GestureState) (item : GridItem) : number :=
  match drag st with
  | Some d => if String.eqb (id item) (drag_id d) then gridX d else x item
  | None => x item
  end.

Definition displayY (st : GestureState) (item : GridItem) : number :=
  match drag st with
  | Some d => if String.eqb (id item) (drag_id d) then gridY d else y item
  | None => y item
  end.

(* ================================================================== *)
(** ** The fluid component (container-relative cell width) *)

Module Fluid.

(** [columnsProp ?? columnsFromStore] *)
Definition columnsOf (env : Env) : number :=
  match columnsProp env with
  | Some c => c
  | None => columns (snapshot env)
  end.

Definition getCellWidthFromRect (env : Env) (rect : DOMRect) : number :=
  if JS.gt (columnsOf env) (int 0) then JS.div (width rect) (columnsOf env)
  else cellWidth env.

Definition handleMove (env : Env) (st : GestureState) (e : MouseEvent)
  : GestureState :=
  match drag st, containerRef env with
  | Some _, Some rect =>
      let cw := getCellWidthFromRect env rect in
      let pixelX := JS.sub (clientX e) (left rect) in
      let pixelY := JS.sub (clientY e) (top rect) in
      let gridX :=
        Math.max (int 0)
          (Math.min (JS.sub (columnsOf env) (int 1))
             (Math.round (JS.div pixelX cw))) in
      let gridY := pixelToGridY (cellHeight env) pixelY in
      setPreview gridX gridY st
  | _, _ => st
  end.

Definition handleResize (env : Env) (st : GestureState) (e : MouseEvent)
  : list LayoutAction :=
  match resize st, containerRef env with
  | Some r, Some rect =>
      let cw := getCellWidthFromRect env rect in
      let pixelX := JS.sub (clientX e) (left rect) in
      let pixelY := JS.sub (clientY e) (top rect) in
      match findItem (resize_id r) (items (snapshot env)) with
      | None => []
      | Some item =>
          let baseLeft := JS.mul (x item) cw in
          let baseTop := JS.mul (y item) (cellHeight env) in
          let pixelW := Math.max cw (JS.sub pixelX baseLeft) in
          let pixelH := Math.max (cellHeight env) (JS.sub pixelY baseTop) in
          let w :=
            Math.min (JS.sub (columnsOf env) (x item))
              (Math.max (int 1) (Math.round (JS.div pixelW cw))) in
          let h := pixelToGridH (cellHeight env) pixelH in
          [Resize (resize_id r) w h]
      end
  | _, _ => []
  end.

(** One event, handled after a render that shows the state [st].  The
    window listeners exist only while the matching gesture is active
    (the two effects return early otherwise). *)
Definition step (env : Env) (ev : Event) (st : GestureState)
  : GestureState * list LayoutAction :=
  match ev with
  | PanelMouseDown e item => (onPanelMouseDown env e item st, [])
  | ResizeHandleMouseDown e item => (onResizeHandleMouseDown env e item st, [])
  | MouseMove e =>
      let st' := match drag st with
                 | Some _ => handleMove env st e
                 | None => st
                 end in
      let acts := match resize st with
                  | Some _ => handleResize env st e
                  | None => []
                  end in
      (st', acts)
  | MouseUp =>
      let '(st1, acts) := match drag st with
                          | Some _ => handleMoveEnd st
                          | None => (st, [])
                          end in
      let st2 := match resize st with
                 | Some _ => handleResizeEnd st1
                 | None => st1
                 end in
      (st2, acts)
  end.

(** [colPct] *)
Definition colPct (env : Env) (gridUnits : number) : number :=
  if JS.gt (columnsOf env) (int 0)
  then JS.mul (JS.div gridUnits (columnsOf env)) (int 100)
  else int 0.

(** The fragment rendered for one item. *)
Definition renderItem (env : Env) (st : GestureState) (item : GridItem)
  : list Box :=
  (if isDragging st item
   then [mkBox Placeholder (id item)
           (Pct (colPct env (x item)))
           (Px (JS.mul (y item) (cellHeight env)))
           (Pct (colPct env (w item)))
           (Px (JS.mul (h item) (cellHeight env)))
           None None None false]
   else [])
  ++ [mkBox Panel (id item)
        (Pct (colPct env (displayX st item)))
        (Px (JS.mul (displayY st item) (cellHeight env)))
        (Pct (colPct env (w item)))
        (Px (JS.mul (h item) (cellHeight env)))
        (Some (panelCursor env st item))
        (Some (panelOpacity st item))
        (Some (panelZIndex st item))
        (resizable env)].

(** [items.map(...)] *)
Definition renderItems (env : Env) (st : GestureState) : list Box :=
  flat_map (renderItem env st) (items (snapshot env)).

(** [handleMove] as the window listener registered by an earlier render
    runs it: the guard reads [closure], the [drag] of that render; the
    functional [setDrag] applies to the state of the moment, [cur]. *)
Definition handleMoveFrom (env : Env) (closure : option DragState)
  (cur : GestureState) (e : MouseEvent) : GestureState :=
  match closure, containerRef env with
  | Some _, Some rect =>
      let cw := getCellWidthFromRect env rect in
      let pixelX := JS.sub (clientX e) (left rect) in
      let pixelY := JS.sub (clientY e) (top rect) in
      let gridX :=
        Math.max (int 0)
          (Math.min (JS.sub (columnsOf env) (int 1))
             (Math.round (JS.div pixelX cw))) in
      let gridY := pixelToGridY (cellHeight env) pixelY in
      setPreview gridX gridY cur
  | _, _ => cur
  end.

End Fluid.

(* ================================================================== *)
(** ** The fixed-pixel component *)

Module Fixed.

(** [const { items, columns } = useLayoutState(store)] *)
Definition columnsOf (env : Env) : number := columns (snapshot env).

Definition pixelToGridX (cellWidth columns pixelX : number) : number :=
  Math.max (int 0)
    (Math.min (JS.sub columns (int 1)) (Math.round (JS.div pixelX cellWidth))).

Definition pixelToGridW (cellWidth pixelW : number) : number :=
  Math.max (int 1) (Math.round (JS.div pixelW cellWidth)).

Definition handleMove (env : Env) (st : GestureState) (e : MouseEvent)
  : GestureState :=
  match drag st, containerRef env with
  | Some _, Some rect =>
      let pixelX := JS.sub (clientX e) (left rect) in
      let pixelY := JS.sub (clientY e) (top rect) in
      let gridX := pixelToGridX (cellWidth env) (columnsOf env) pixelX in
      let gridY := pixelToGridY (cellHeight env) pixelY in
      setPreview gridX gridY st
  | _, _ => st
  end.

Definition handleResize (env : Env) (st : GestureState) (e : MouseEvent)
  : list LayoutAction :=
  match resize st, containerRef env with
  | Some r, Some rect =>
      let pixelX := JS.sub (clientX e) (left rect) in
      let pixelY := JS.sub (clientY e) (top rect) in
      match findItem (resize_id r) (items (snapshot env)) with
      | None => []
      | Some item =>
          let baseLeft := JS.mul (x item) (cellWidth env) in
          let baseTop := JS.mul (y item) (cellHeight env) in
          let pixelW := Math.max (cellWidth env) (JS.sub pixelX baseLeft) in
          let pixelH := Math.max (cellHeight env) (JS.sub pixelY baseTop) in
          let w :=
            Math.min (JS.sub (columnsOf env) (x item))
              (pixelToGridW (cellWidth env) pixelW) in
          let h := pixelToGridH (cellHeight env) pixelH in
          [Resize (resize_id r) w h]
      end
  | _, _ => []
  end.

Definition step (env : Env) (ev : Event) (st : GestureState)
  : GestureState * list LayoutAction :=
  match ev with
  | PanelMouseDown e item => (onPanelMouseDown env e item st, [])
  | ResizeHandleMouseDown e item => (onResizeHandleMouseDown env e item st, [])
  | MouseMove e =>
      let st' := match drag st with
                 | Some _ => handleMove env st e
                 | None => st
                 end in
      let acts := match resize st with
                  | Some _ => handleResize env st e
                  | None => []
                  end in
      (st', acts)
  | MouseUp =>
      let '(st1, acts) := match drag st with
                          | Some _ => handleMoveEnd st
                          | None => (st, [])
                          end in
      let st2 := match resize st with
                 | Some _ => handleResizeEnd st1
                 | None => st1
                 end in
      (st2, acts)
  end.

(** [totalW] *)
Definition totalW (env : Env) : number :=
  JS.mul (columnsOf env) (cellWidth env).

(** The fragment rendered for one item. *)
Definition renderItem (env : Env) (st : GestureState) (item : GridItem)
  : list Box :=
  (if isDragging st item
   then [mkBox Placeholder (id item)
           (Px (JS.mul (x item) (cellWidth env)))
           (Px (JS.mul (y item) (cellHeight env)))
           (Px (JS.mul (w item) (cellWidth env)))
           (Px (JS.mul (h item) (cellHeight env)))
           None None None false]
   else [])
  ++ [mkBox Panel (id item)
        (Px (JS.mul (displayX st item) (cellWidth env)))
        (Px (JS.mul (displayY st item) (cellHeight env)))
        (Px (JS.mul (w item) (cellWidth env)))
        (Px (JS.mul (h item) (cellHeight env)))
        (Some (panelCursor env st item))
        (Some (panelOpacity st item))
        (Some (panelZIndex st item))
        (resizable env)].

(** [items.map(...)] *)
Definition renderItems (env : Env) (st : GestureState) : list Box :=
  flat_map (renderItem env st) (items (snapshot env)).

(** [handleMove] as the window listener registered by an earlier render
    runs it: the guard reads [closure], the [drag] of that render; the
    functional [setDrag] applies to the state of the moment, [cur]. *)
Definition handleMoveFrom (env : Env) (closure : option DragState)
  (cur : GestureState) (e : MouseEvent) : GestureState :=
  match closure, containerRef env with
  | Some _, Some rect =>
      let pixelX := JS.sub (clientX e) (left rect) in
      let pixelY := JS.sub (clientY e) (top rect) in
      let gridX := pixelToGridX (cellWidth env) (columnsOf env) pixelX in
      let gridY := pixelToGridY (cellHeight env) pixelY in
      setPreview gridX gridY cur
  | _, _ => cur
  end.

End Fixed.

(** The two components behind one interface, for statements that hold of
    both. *)
Inductive Component : Type := FluidLayout | FixedLayout.

Definition stepOf (c : Component) : Env -> Event -> GestureState ->
                                    GestureState * list LayoutAction :=
  match c with
  | FluidLayout => Fluid.step
  | FixedLayout => Fixed.step
  end.

(** A run: every event comes with what the component reads at that
    moment; the result is the final gesture state and, per event, the
    actions dispatched by it. *)
Fixpoint run (c : Component) (evs : list (Env * Event)) (st : GestureState)
  : GestureState * list (list LayoutAction) :=
  match evs with
  | [] => (st, [])
  | (env, ev) :: rest =>
      let '(st1, acts) := stepOf c env ev st in
      let '(st2, log) := run c rest st1 in
      (st2, acts :: log)
  end.

(* ================================================================== *)
(** ** useLayoutState *)

(** A store is known by reference.  [Stores] gives, for every store
    reference, what its [getState()] returns at the moment of the call. *)
Definition StoreRef : Type := nat.
Definition Stores : Type := StoreRef -> LayoutState.

(** One hook instance: the [useState] cell, and the store the last run of
    the effect closed over (its dependency and its live subscription);
    [None] before the first effect has run. *)
Record Hook : Type := mkHook {
  state : LayoutState;
  effectStore : option StoreRef
}.

(** [useState(() => store.getState())] on the first render. *)
Definition mountHook (stores : Stores) (store : StoreRef) : Hook :=
  mkHook (stores store) None.

(** The value the hook returns from a render: the [useState] cell; the
    initialiser is ignored after the first render. *)
Definition render (hk : Hook) : LayoutState := state hk.

(** Has the dependency list [[store]] changed since the last effect? *)
Definition depsChanged (store : StoreRef) (hk : Hook) : bool :=
  match effectStore hk with
  | Some prev => negb (Nat.eqb prev store)
  | None => true
  end.

(** The store notifies its listeners; the hook's listener
    [() => setState(store.getState())] is registered with the store of
    the last effect only (the cleanup unsubscribed any earlier one). *)
Definition notify (stores : Stores) (src : StoreRef) (hk : Hook) : Hook :=
  match effectStore hk with
  | Some s => if Nat.eqb s src then mkHook (stores s) (Some s) else hk
  | None => hk
  end.

(** The revision in [useLayoutState.ts]. *)
Module UseLayoutState.

(** Effects after a render with prop [store]: when the dependency
    changed, the previous cleanup runs (unsubscribe) and the effect
    body runs: [setState(store.getState())], then subscribe. *)
Definition commitEffects (stores : Stores) (store : StoreRef) (hk : Hook)
  : Hook :=
  if depsChanged store hk then mkHook (stores store) (Some store) else hk.

(** One synchronisation cycle: render with [store], run the effects,
    and render again if the effect set state; the result is the hook
    and the snapshot the consumer ends up with. *)
Definition sync (stores : Stores) (store : StoreRef) (hk : Hook)
  : Hook * LayoutState :=
  let hk' := commitEffects stores store hk in
  (hk', render hk').

End UseLayoutState.

(** The other revision of the hook in the repository: its effect only
    subscribes. *)
Module UseLayoutStateLegacy.

Definition commitEffects (stores : Stores) (store : StoreRef) (hk : Hook)
  : Hook :=
  if depsChanged store hk then mkHook (state hk) (Some store) else hk.

Definition sync (stores : Stores) (store : StoreRef) (hk : Hook)
  : Hook * LayoutState :=
  let hk' := commitEffects stores store hk in
  (hk', render hk').

End UseLayoutStateLegacy.

(* ================================================================== *)
(** ** Vocabulary of the statements *)

(** [isval n q]: the number [n] is finite and its value is [q]. *)
Definition isval (n : number) (q : Q) : Prop :=
  match n with
  | Num p => p == q
  | _ => False
  end.

Definition finite (n : number) : Prop := JS.isFinite n = true.

(** The component-specific parts behind one name. *)
Definition columnsOf (c : Component) : Env -> number :=
  match c with
  | FluidLayout => Fluid.columnsOf
  | FixedLayout => Fixed.columnsOf
  end.

Definition handleMoveOf (c : Component)
  : Env -> GestureState -> MouseEvent -> GestureState :=
  match c with
  | FluidLayout => Fluid.handleMove
  | FixedLayout => Fixed.handleMove
  end.

Definition handleResizeOf (c : Component)
  : Env -> GestureState -> MouseEvent -> list LayoutAction :=
  match c with
  | FluidLayout => Fluid.handleResize
  | FixedLayout => Fixed.handleResize
  end.

(** The cell width a tick divides by: measured from the container in the
    fluid component, the [cellWidth] prop in the fixed one. *)
Definition cellWidthEff (c : Component) (env : Env) (rect : DOMRect) : number :=
  match c with
  | FluidLayout => Fluid.getCellWidthFromRect env rect
  | FixedLayout => cellWidth env
  end.

(** The grid position a pointer-move tick computes, in the words of the
    coordinate transform: [pixelToGridX(pixelX, cellWidthEff, columns)]
    and [pixelToGridY(pixelY, cellHeight)] of the pointer position
    relative to the container; nothing when the container is not
    mounted. *)
Definition computedPreview (c : Component) (env : Env) (e : MouseEvent)
  : option (number * number) :=
  match containerRef env with
  | Some rect =>
      Some (Fixed.pixelToGridX (cellWidthEff c env rect) (columnsOf c env)
              (JS.sub (clientX e) (left rect)),
            pixelToGridY (cellHeight env) (JS.sub (clientY e) (top rect)))
  | None => None
  end.

(** The last position computed by a sequence of pointer-move ticks, or
    [start] when none of them computed one. *)
Fixpoint lastPreview (c : Component) (start : number * number)
  (moves : list (Env * MouseEvent)) : number * number :=
  match moves with
  | [] => start
  | (env, e) :: rest =>
      match computedPreview c env e with
      | Some p => lastPreview c p rest
      | None => lastPreview c start rest
      end
  end.

Definition asMoves (moves : list (Env * MouseEvent)) : list (Env * Event) :=
  map (fun m => (fst m, MouseMove (snd m))) moves.

(** Window events that start no gesture. *)
Definition windowEvent (ev : Event) : bool :=
  match ev with
  | MouseMove _ => true
  | MouseUp => true
  | _ => false
  end.

(** The size a resize tick computes, in the words of the spec: the pixel
    footprint from the item's top-left corner to the pointer, floored at
    one cell, converted with [pixelToGridW] / [pixelToGridH], the width
    clamped to [columns - item.x]. *)
Definition computedSize (c : Component) (env : Env) (rect : DOMRect)
  (item : GridItem) (e : MouseEvent) : number * number :=
  let cw := cellWidthEff c env rect in
  let pixelW :=
    Math.max cw (JS.sub (JS.sub (clientX e) (left rect)) (JS.mul (x item) cw)) in
  let pixelH :=
    Math.max (cellHeight env)
      (JS.sub (JS.sub (clientY e) (top rect)) (JS.mul (y item) (cellHeight env))) in
  (Math.min (JS.sub (columnsOf c env) (x item)) (Fixed.pixelToGridW cw pixelW),
   pixelToGridH (cellHeight env) pixelH).

(** The range the spec asks of a dispatched action: finite fields,
    [0 <= x < columns] and [0 <= y] for a move, [w > 0] and [h > 0] for a
    resize. *)
Definition validAction (columns : number) (a : LayoutAction) : bool :=
  match a with
  | Move _ ax ay =>
      JS.isFinite ax && JS.isFinite ay &&
      JS.le (int 0) ax && JS.gt columns ax && JS.le (int 0) ay
  | Resize _ aw ah =>
      JS.isFinite aw && JS.isFinite ah &&
      JS.gt aw (int 0) && JS.gt ah (int 0)
  end.

(** What a resize tick dispatches for the gesture on item [target]: one
    resize action with the size computed from the item as it is in that
    tick's snapshot, or nothing when the container is not mounted or the
    item is not in the snapshot. *)
Definition resizeTick (c : Component) (target : string) (env : Env)
  (e : MouseEvent) : list LayoutAction :=
  match containerRef env, findItem target (items (snapshot env)) with
  | Some rect, Some item =>
      [Resize target (fst (computedSize c env rect item e))
                     (snd (computedSize c env rect item e))]
  | _, _ => []
  end.

(** The value of [Math.round] on a finite number. *)
Definition roundQ (p : Q) : Q := inject_Z (Qfloor (p + (1 # 2))).

(** All actions dispatched by a run, in order. *)
Definition dispatched (c : Component) (evs : list (Env * Event))
  (st : GestureState) : list LayoutAction :=
  List.concat (snd (run c evs st)).

(* ================================================================== *)
(** ** Concrete layouts used in the examples *)

Local Open Scope string_scope.

(** A container at the viewport origin, [wd] pixels wide. *)
Definition rectOfWidth (wd : Z) : DOMRect :=
  mkDOMRect (int 0) (int 0) (int wd) (int 400).

(** 100 x 100 pixel cells, [cols] columns in the store, the container as
    wide as the grid, drag and resize enabled. *)
Definition gridEnv (cols : Z) (its : list GridItem) : Env :=
  mkEnv (int 100) (int 100) None true true
        (mkLayoutState its (int cols)) (Some (rectOfWidth (100 * cols))).

(** Primary-button pointer at client position [(px, py)]. *)
Definition pointer (px py : Z) : MouseEvent := mkMouseEvent 0 (int px) (int py).

(** Scenario A: an item at (2, 1). *)
Definition itemA : GridItem := mkGridItem "a" (int 2) (int 1) (int 1) (int 1).

(** Scenario B: an item at (0, 0) of size 2 x 2. *)
Definition itemB : GridItem := mkGridItem "b" (int 0) (int 0) (int 2) (int 2).

(** The resize gesture on that item, started at its lower right corner. *)
Definition resizeB : ResizeState :=
  mkResize "b" (int 2) (int 2) (int 195) (int 195).

Definition resizingB : GestureState := mkGesture None (Some resizeB).

(** A store with twelve columns shown with [columns = 4]: the item sits
    at column 6 of the store's grid. *)
Definition itemC : GridItem := mkGridItem "c" (int 6) (int 0) (int 2) (int 2).

Definition overrideEnv : Env :=
  mkEnv (int 100) (int 100) (Some (int 4)) true true
        (mkLayoutState [itemC] (int 12)) (Some (rectOfWidth 400)).

(** The fluid container measured with zero width (collapsed or hidden). *)
Definition collapsedEnv : Env :=
  mkEnv (int 100) (int 100) None true true
        (mkLayoutState [itemB] (int 4)) (Some (rectOfWidth 0)).

(** Two stores with different snapshots. *)
Definition snapshotOne : LayoutState := mkLayoutState [itemB] (int 12).
Definition snapshotTwo : LayoutState := mkLayoutState [itemA; itemB] (int 4).

Definition twoStores : Stores :=
  fun s => match s with
           | O => snapshotOne
           | _ => snapshotTwo
           end.

Local Close Scope string_scope.

(* ================================================================== *)
(** ** Vocabulary of the further properties *)

(** [same a b]: the two numbers are the same JavaScript value (two
    representations of one rational count as the same). *)
Definition same (a b : number) : Prop :=
  match a, b with
  | NaN, NaN => True
  | PosInf, PosInf => True
  | NegInf, NegInf => True
  | Num p, Num q => p == q
  | _, _ => False
  end.

Definition actionId (a : LayoutAction) : string :=
  match a with
  | Move i _ _ => i
  | Resize i _ _ => i
  end.

Definition isMove (a : LayoutAction) : bool :=
  match a with
  | Move _ _ _ => true
  | Resize _ _ _ => false
  end.

(** The ids of the items whose panel (resp. resize handle) received a
    pointer-down in a list of events. *)
Fixpoint panelDowns (evs : list (Env * Event)) : list string :=
  match evs with
  | [] => []
  | (_, PanelMouseDown _ item) :: rest => id item :: panelDowns rest
  | _ :: rest => panelDowns rest
  end.

Fixpoint handleDowns (evs : list (Env * Event)) : list string :=
  match evs with
  | [] => []
  | (_, ResizeHandleMouseDown _ item) :: rest => id item :: handleDowns rest
  | _ :: rest => handleDowns rest
  end.

(** A pointer-down that starts nothing: the gesture is disabled in the
    environment it arrives in, or the button is not the primary one.
    Window events start nothing either. *)
Definition startsNothing (p : Env * Event) : bool :=
  match snd p with
  | PanelMouseDown e _ => negb (draggable (fst p)) || negb (button e =? 0)%Z
  | ResizeHandleMouseDown e _ => negb (resizable (fst p)) || negb (button e =? 0)%Z
  | MouseMove _ => true
  | MouseUp => true
  end.

(** The [id]s, in order, of the boxes of one kind. *)
Definition keysOf (k : BoxKind) (boxes : list Box) : list string :=
  map key (filter (fun b => match kind b, k with
                            | Placeholder, Placeholder => true
                            | Panel, Panel => true
                            | _, _ => false
                            end) boxes).

(** Right and bottom edge of a box, in the units of its lengths. *)
Definition boxRight (b : Box) : number :=
  JS.add (lengthValue (cssLeft b)) (lengthValue (cssWidth b)).

Definition boxBottom (b : Box) : number :=
  JS.add (lengthValue (cssTop b)) (lengthValue (cssHeight b)).

Definition renderItemOf (c : Component)
  : Env -> GestureState -> GridItem -> list Box :=
  match c with
  | FluidLayout => Fluid.renderItem
  | FixedLayout => Fixed.renderItem
  end.

Definition renderItemsOf (c : Component) : Env -> GestureState -> list Box :=
  match c with
  | FluidLayout => Fluid.renderItems
  | FixedLayout => Fixed.renderItems
  end.

(** The box shows an item where the store has it: a placeholder, or the
    panel of an item that is not being dragged. *)
Definition committedBox (st : GestureState) (item : GridItem) (b : Box) : bool :=
  match kind b with
  | Placeholder => true
  | Panel => negb (isDragging st item)
  end.

(** *** The hook over time *)

(** A store commits a new state and notifies its listeners, or the
    consumer renders again with a store prop. *)
Inductive HookEvent : Type :=
| Commit (s : StoreRef) (v : LayoutState)
| Rerender (s : StoreRef).

Definition setStore (stores : Stores) (s : StoreRef) (v : LayoutState)
  : Stores :=
  fun t => if Nat.eqb t s then v else stores t.

Inductive Revision : Type := CurrentHook | LegacyHook.

Definition syncOf (r : Revision)
  : Stores -> StoreRef -> Hook -> Hook * LayoutState :=
  match r with
  | CurrentHook => UseLayoutState.sync
  | LegacyHook => UseLayoutStateLegacy.sync
  end.

(** First render with [store], then its effects, with no store commit
    in between.  A run that starts at [mountHook] has the first
    [Rerender] as the first run of the effects, and can have commits
    before it. *)
Definition mounted (r : Revision) (stores : Stores) (store : StoreRef) : Hook :=
  fst (syncOf r stores store (mountHook stores store)).

Definition hookStep (r : Revision) (world : Stores * Hook) (ev : HookEvent)
  : Stores * Hook :=
  match ev with
  | Commit s v =>
      let stores' := setStore (fst world) s v in
      (stores', notify stores' s (snd world))
  | Rerender s => (fst world, fst (syncOf r (fst world) s (snd world)))
  end.

Definition hookRun (r : Revision) (world : Stores * Hook)
  (evs : list HookEvent) : Stores * Hook :=
  fold_left (hookStep r) evs world.

(** The store prop of the last render. *)
Fixpoint lastStore (s0 : StoreRef) (evs : list HookEvent) : StoreRef :=
  match evs with
  | [] => s0
  | Rerender s :: rest => lastStore s rest
  | Commit _ _ :: rest => lastStore s0 rest
  end.

Definition keepsStore (s0 : StoreRef) (ev : HookEvent) : bool :=
  match ev with
  | Rerender s => Nat.eqb s s0
  | Commit _ _ => true
  end.

Definition isCommit (ev : HookEvent) : bool :=
  match ev with
  | Commit _ _ => true
  | Rerender _ => false
  end.

(** The event is not a commit of store [s0]. *)
Definition leavesStore (s0 : StoreRef) (ev : HookEvent) : bool :=
  match ev with
  | Commit s _ => negb (Nat.eqb s s0)
  | Rerender _ => true
  end.

(** *** Renders and events in any order

    Handlers are closures of a render.  The window listeners are the ones
    registered by the effects of the last render, and they read the
    [drag] and [resize] of that render; [setDrag] and [setResize] write
    the state cells at once.  [containerRef.current] and its rectangle
    are read when the event arrives.  [step] above is the case in which
    a render (with its effects) comes before every event. *)

Record Timed : Type := mkTimed {
  current : GestureState;              (* the state cells *)
  shown : Env;                         (* props and snapshot of the last render *)
  dragListener : option DragState;     (* [drag] read by the registered drag listeners *)
  resizeListener : option ResizeState  (* [resize] read by the registered resize listeners *)
}.

Inductive TimedEvent : Type :=
| Rendered (env : Env)                          (* render with these props and snapshot, then effects *)
| Pointer (live : option DOMRect) (ev : Event). (* a pointer event; [containerRef.current] is [live] *)

(** What a handler of the last render reads when an event arrives. *)
Definition atContainer (env : Env) (live : option DOMRect) : Env :=
  mkEnv (cellWidth env) (cellHeight env) (columnsProp env)
        (draggable env) (resizable env) (snapshot env) live.

(** The first render, with no gesture. *)
Definition mountedWith (env : Env) : Timed := mkTimed Idle env None None.

Definition handleMoveFromOf (c : Component)
  : Env -> option DragState -> GestureState -> MouseEvent -> GestureState :=
  match c with
  | FluidLayout => Fluid.handleMoveFrom
  | FixedLayout => Fixed.handleMoveFrom
  end.

(** One render or one event.  The effects of a render register the
    listeners of the gestures that are active ([if (!drag) return] resp.
    [if (!resize) return]); each [onUp] removes the listeners of its own
    effect.  [handleMoveEnd] and [handleResize] only read the state of
    their render, so they are run on it. *)
Definition timedStep (c : Component) (ev : TimedEvent) (t : Timed)
  : Timed * list LayoutAction :=
  match ev with
  | Rendered env =>
      (mkTimed (current t) env (drag (current t)) (resize (current t)), [])
  | Pointer live (PanelMouseDown e item) =>
      (mkTimed (onPanelMouseDown (shown t) e item (current t)) (shown t)
               (dragListener t) (resizeListener t), [])
  | Pointer live (ResizeHandleMouseDown e item) =>
      (mkTimed (onResizeHandleMouseDown (shown t) e item (current t)) (shown t)
               (dragListener t) (resizeListener t), [])
  | Pointer live (MouseMove e) =>
      let env := atContainer (shown t) live in
      let cur := match dragListener t with
                 | Some d => handleMoveFromOf c env (Some d) (current t) e
                 | None => current t
                 end in
      let acts := match resizeListener t with
                  | Some r =>
                      handleResizeOf c env (mkGesture (drag (current t)) (Some r)) e
                  | None => []
                  end in
      (mkTimed cur (shown t) (dragListener t) (resizeListener t), acts)
  | Pointer live MouseUp =>
      let '(cur1, acts) :=
        match dragListener t with
        | Some d => handleMoveEnd (mkGesture (Some d) (resize (current t)))
        | None => (current t, [])
        end in
      let cur2 := match resizeListener t with
                  | Some _ => handleResizeEnd cur1
                  | None => cur1
                  end in
      (mkTimed cur2 (shown t) None None, acts)
  end.

Fixpoint timedRun (c : Component) (evs : list TimedEvent) (t : Timed)
  : Timed * list (list LayoutAction) :=
  match evs with
  | [] => (t, [])
  | ev :: rest =>
      let '(t1, acts) := timedStep c ev t in
      let '(t2, log) := timedRun c rest t1 in
      (t2, acts :: log)
  end.

(** A render before every event. *)
Definition renderedFirst (evs : list (Env * Event)) : list TimedEvent :=
  flat_map (fun p => [Rendered (fst p); Pointer (containerRef (fst p)) (snd p)])
           evs.

(** The position of a dispatched move was captured at a pointer-down on
    the panel of the item with that id. *)
Definition capturedIn (evs : list TimedEvent) (i : string)
  (p : number * number) : Prop :=
  exists live e item,
    In (Pointer live (PanelMouseDown e item)) evs /\
    id item = i /\ p = (x item, y item).

(** The position was computed by a pointer-move tick of the run, with the
    props of the first render or of a render of the run. *)
Definition computedIn (c : Component) (env0 : Env) (evs : list TimedEvent)
  (p : number * number) : Prop :=
  exists env live e,
    (env = env0 \/ In (Rendered env) evs) /\
    In (Pointer live (MouseMove e)) evs /\
    computedPreview c (atContainer env live) e = Some p.

(** Where the position held by a drag state comes from. *)
Definition traced (c : Component) (env0 : Env) (all : list TimedEvent)
  (d : DragState) : Prop :=
  capturedIn all (drag_id d) (gridX d, gridY d) \/
  computedIn c env0 all (gridX d, gridY d).

(** The state cell and the listeners hold traced positions only, and the
    props of the last render are those of the first render or of a render
    of the run. *)
Definition tracedState (c : Component) (env0 : Env) (all : list TimedEvent)
  (t : Timed) : Prop :=
  (forall d, drag (current t) = Some d -> traced c env0 all d) /\
  (forall d, dragListener t = Some d -> traced c env0 all d) /\
  (shown t = env0 \/ In (Rendered (shown t)) all).

(** A pointer-move tick the clamps of the preview are meant for: if the
    container is mounted, the pointer and the container's corner are
    finite, the cell width the tick divides by and the cell height are
    finite and not zero, and [columns] is finite and at least 1. *)
Definition wellConditioned (c : Component) (env : Env) (e : MouseEvent) : Prop :=
  match containerRef env with
  | None => True
  | Some rect =>
      finite (clientX e) /\ finite (clientY e) /\
      finite (left rect) /\ finite (top rect) /\
      (exists cw, isval (cellWidthEff c env rect) cw /\ ~ cw == 0) /\
      (exists ch, isval (cellHeight env) ch /\ ~ ch == 0) /\
      (exists cx, isval (columnsOf c env) cx /\ 1 <= cx)
  end.

(** All actions dispatched by a run with renders, in order. *)
Definition timedDispatched (c : Component) (evs : list TimedEvent) (t : Timed)
  : list LayoutAction :=
  List.concat (snd (timedRun c evs t)).

(** *** Further concrete inputs *)

Local Open Scope string_scope.

(** View mode: neither dragging nor resizing is enabled. *)
Definition viewEnv : Env :=
  mkEnv (int 100) (int 100) None false false
        (mkLayoutState [itemA; itemB] (int 12)) (Some (rectOfWidth 1200)).

(** The container is not mounted. *)
Definition unmountedEnv : Env :=
  mkEnv (int 100) (int 100) None true true
        (mkLayoutState [itemA; itemB] (int 12)) None.

(** A pointer-down with the secondary button. *)
Definition secondaryButton : MouseEvent := mkMouseEvent 2 (int 250) (int 150).

(** Item [a] being dragged, its preview at (4, 3). *)
Definition draggingA : GestureState :=
  mkGesture (Some (mkDrag "a" (int 250) (int 150) (int 4) (int 3))) None.

(** Scenario A with a render after the pointer-down and after the
    pointer-move. *)
Definition scenarioA : list TimedEvent :=
  [Pointer (Some (rectOfWidth 1200)) (PanelMouseDown (pointer 250 150) itemA);
   Rendered (gridEnv 12 [itemA]);
   Pointer (Some (rectOfWidth 1200)) (MouseMove (pointer 400 300));
   Rendered (gridEnv 12 [itemA]);
   Pointer (Some (rectOfWidth 1200)) MouseUp].

(** Item [b] with another committed size. *)
Definition itemBwide : GridItem :=
  mkGridItem "b" (int 0) (int 0) (int 4) (int 1).


Local Close Scope string_scope.

(* ================================================================== *)
(** ** Arithmetic of [number] on finite values *)

Section Values.

Lemma isval_Num (q : Q) : isval (Num q) q.
Proof. simpl. reflexivity. Qed.

Lemma isval_int (z : Z) : isval (int z) (inject_Z z).
Proof. apply isval_Num. Qed.

Lemma finite_isval (n : number) : finite n -> exists q, isval n q.
Proof.
  destruct n; unfold finite; simpl; try discriminate.
  intros _. exists q. reflexivity.
Qed.

Lemma isval_finite (n : number) (q : Q) : isval n q -> finite n.
Proof. destruct n; simpl; try tauto. reflexivity. Qed.

Lemma Qle_bool_false (a b : Q) : Qle_bool a b = false -> b < a.
Proof.
  intros E. apply Qnot_le_lt. intros L.
  apply Qle_bool_iff in L. congruence.
Qed.

Lemma Qeq_bool_false_iff (a b : Q) : Qeq_bool a b = false <-> ~ a == b.
Proof.
  split.
  - apply Qeq_bool_neq.
  - intros N. destruct (Qeq_bool a b) eqn:E; [|reflexivity].
    apply Qeq_bool_iff in E. contradiction.
Qed.

Variables (a b : number) (p q : Q).
Hypothesis (Ha : isval a p) (Hb : isval b q).

Lemma isval_sub : isval (JS.sub a b) (p - q).
Proof.
  destruct a, b; simpl in *; try tauto. rewrite Ha, Hb. reflexivity.
Qed.

Lemma isval_add : isval (JS.add a b) (p + q).
Proof.
  destruct a, b; simpl in *; try tauto. rewrite Ha, Hb. reflexivity.
Qed.

Lemma isval_mul : isval (JS.mul a b) (p * q).
Proof.
  destruct a, b; simpl in *; try tauto. rewrite Ha, Hb. reflexivity.
Qed.

Lemma isval_div : ~ q == 0 -> isval (JS.div a b) (p / q).
Proof.
  intros Hq. destruct a as [| | |p'], b as [| | |q']; simpl in *; try tauto.
  assert (E : Qeq_bool q' 0 = false).
  { apply Qeq_bool_false_iff. rewrite Hb. exact Hq. }
  rewrite E. simpl. rewrite Ha, Hb. reflexivity.
Qed.

Lemma isval_max : isval (Math.max a b) (Qmax p q).
Proof.
  destruct a as [| | |p'], b as [| | |q']; simpl in *; try tauto.
  destruct (Qle_bool p' q') eqn:E; simpl.
  - apply Qle_bool_iff in E. rewrite <- Ha, <- Hb.
    symmetry. apply Q.max_r. exact E.
  - apply Qle_bool_false in E. rewrite <- Ha, <- Hb.
    symmetry. apply Q.max_l. apply Qlt_le_weak. exact E.
Qed.

Lemma isval_min : isval (Math.min a b) (Qmin p q).
Proof.
  destruct a as [| | |p'], b as [| | |q']; simpl in *; try tauto.
  destruct (Qle_bool p' q') eqn:E; simpl.
  - apply Qle_bool_iff in E. rewrite <- Ha, <- Hb.
    symmetry. apply Q.min_l. exact E.
  - apply Qle_bool_false in E. rewrite <- Ha, <- Hb.
    symmetry. apply Q.min_r. apply Qlt_le_weak. exact E.
Qed.

Lemma isval_round : isval (Math.round a) (inject_Z (Qfloor (p + (1 # 2)))).
Proof.
  destruct a as [| | |p']; cbn [isval Math.round] in *; try tauto.
  rewrite Ha. reflexivity.
Qed.

Lemma le_isval : JS.le a b = Qle_bool p q.
Proof.
  destruct a as [| | |p'], b as [| | |q']; cbn [isval JS.le] in *; try tauto.
  apply Qleb_comp; assumption.
Qed.

Lemma gt_isval : JS.gt a b = negb (Qle_bool p q).
Proof.
  destruct a as [| | |p'], b as [| | |q']; cbn [isval JS.gt] in *; try tauto.
  f_equal. apply Qleb_comp; assumption.
Qed.

Lemma eqb_isval : JS.eqb a b = Qeq_bool p q.
Proof.
  destruct a as [| | |p'], b as [| | |q']; cbn [isval JS.eqb] in *; try tauto.
  apply Qeqb_comp; assumption.
Qed.

End Values.

(* ================================================================== *)
(** ** The coordinate transform *)

Lemma roundQ_mono (p1 p2 : Q) : p1 <= p2 -> roundQ p1 <= roundQ p2.
Proof.
  intros L. unfold roundQ. rewrite <- Zle_Qle.
  apply Qfloor_resp_le. lra.
Qed.

Lemma roundQ_int (z : Z) : roundQ (inject_Z z) == inject_Z z.
Proof.
  unfold roundQ.
  assert (E : Qfloor (inject_Z z + (1 # 2)) = z).
  { assert (L := Qfloor_le (inject_Z z + (1 # 2))).
    assert (U := Qlt_floor (inject_Z z + (1 # 2))).
    set (k := Qfloor (inject_Z z + (1 # 2))) in *.
    rewrite inject_Z_plus in U. 
    assert (L' : inject_Z k < inject_Z (z + 1)).
    { rewrite inject_Z_plus. change (inject_Z 1) with 1. lra. }
    assert (U' : inject_Z z < inject_Z (k + 1)).
    { rewrite inject_Z_plus. change (inject_Z 1) with 1 in *. lra. }
    rewrite <- Zlt_Qlt in L', U'. lia. }
  rewrite E. reflexivity.
Qed.

Lemma roundQ_nonpos (p : Q) : p <= 0 -> roundQ p <= 0.
Proof.
  intros L. unfold roundQ.
  assert (U := Qfloor_le (p + (1 # 2))).
  set (k := Qfloor (p + (1 # 2))) in *.
  assert (K : inject_Z k < inject_Z 1) by (change (inject_Z 1) with 1; lra).
  rewrite <- Zlt_Qlt in K.
  change 0 with (inject_Z 0). rewrite <- Zle_Qle. lia.
Qed.

Lemma Qdiv_le_mono (p1 p2 q : Q) : 0 < q -> p1 <= p2 -> p1 / q <= p2 / q.
Proof.
  intros Hq L. unfold Qdiv. apply Qmult_le_compat_r; [exact L|].
  apply Qlt_le_weak, Qinv_lt_0_compat, Hq.
Qed.

Lemma Qdiv_nonneg_neg (p q : Q) : q < 0 -> 0 <= p -> p / q <= 0.
Proof.
  intros Hq Hp.
  assert (E : p / q == - (p / - q)) by (field; lra).
  rewrite E.
  assert (0 <= p / - q).
  { apply Qle_shift_div_l; lra. }
  lra.
Qed.

Lemma pixelToGridX_val (cw cols px : number) (q c p : Q) :
  isval cw q -> ~ q == 0 -> isval cols c -> isval px p ->
  isval (Fixed.pixelToGridX cw cols px)
        (Qmax 0 (Qmin (c - 1) (roundQ (p / q)))).
Proof.
  intros Hcw Hq Hc Hp. unfold Fixed.pixelToGridX.
  apply (isval_max _ _ _ _ (isval_int 0)).
  apply isval_min.
  - apply (isval_sub _ _ _ _ Hc (isval_int 1)).
  - apply isval_round. apply isval_div; assumption.
Qed.

Lemma pixelToGridY_val (ch py : number) (q p : Q) :
  isval ch q -> ~ q == 0 -> isval py p ->
  isval (pixelToGridY ch py) (Qmax 0 (roundQ (p / q))).
Proof.
  intros Hch Hq Hp. unfold pixelToGridY.
  apply (isval_max _ _ _ _ (isval_int 0)).
  apply isval_round. apply isval_div; assumption.
Qed.

Lemma le_true (a b : number) (p q : Q) :
  isval a p -> isval b q -> p <= q -> JS.le a b = true.
Proof.
  intros Ha Hb L. rewrite (le_isval _ _ _ _ Ha Hb). apply Qle_bool_iff, L.
Qed.

Lemma eqb_true (a b : number) (p q : Q) :
  isval a p -> isval b q -> p == q -> JS.eqb a b = true.
Proof.
  intros Ha Hb L. rewrite (eqb_isval _ _ _ _ Ha Hb). apply Qeq_bool_iff, L.
Qed.

Lemma gridX_mono (q c p1 p2 : Q) :
  ~ q == 0 -> 0 <= p1 -> p1 <= p2 ->
  Qmax 0 (Qmin (c - 1) (roundQ (p1 / q))) <= Qmax 0 (Qmin (c - 1) (roundQ (p2 / q))).
Proof.
  intros Hq H1 H12.
  destruct (Qlt_le_dec 0 q) as [Pos|Neg].
  - apply Q.max_le_compat_l, Q.min_le_compat_l, roundQ_mono.
    apply Qdiv_le_mono; assumption.
  - assert (Hneg : q < 0).
    { apply Qle_lteq in Neg. destruct Neg as [N|N]; [exact N|contradiction]. }
    apply Q.max_lub; [apply Q.le_max_l|].
    eapply Qle_trans; [apply Q.le_min_r|].
    eapply Qle_trans; [|apply Q.le_max_l].
    apply roundQ_nonpos, Qdiv_nonneg_neg; assumption.
Qed.

(** C5.  For a finite non-zero cell width, every integer [columns > 0]
    and all [0 <= pixelX <= pixelX'], [pixelToGridX(pixelX)] lies in
    [[0, columns - 1]] and [pixelToGridX(pixelX) <= pixelToGridX(pixelX')]. *)
Theorem pixelToGridX_in_range_and_monotone :
  forall (cellWidth : Q) (columns : Z) (pixelX pixelX' : Q),
    ~ cellWidth == 0 -> (0 < columns)%Z -> 0 <= pixelX -> pixelX <= pixelX' ->
    let gx := Fixed.pixelToGridX (Num cellWidth) (int columns) (Num pixelX) in
    let gx' := Fixed.pixelToGridX (Num cellWidth) (int columns) (Num pixelX') in
    JS.le (int 0) gx = true /\
    JS.le gx (JS.sub (int columns) (int 1)) = true /\
    JS.le gx gx' = true.
Proof.
  intros cw c p p' Hcw Hc Hp Hpp' gx gx'.
  assert (V := pixelToGridX_val (Num cw) (int c) (Num p) cw (inject_Z c) p
                 (isval_Num cw) Hcw (isval_int c) (isval_Num p)).
  assert (V' := pixelToGridX_val (Num cw) (int c) (Num p') cw (inject_Z c) p'
                 (isval_Num cw) Hcw (isval_int c) (isval_Num p')).
  fold gx in V. fold gx' in V'.
  assert (C1 : 1 <= inject_Z c).
  { change 1 with (inject_Z 1). rewrite <- Zle_Qle. lia. }
  repeat split.
  - apply (le_true _ _ _ _ (isval_int 0) V). apply Q.le_max_l.
  - apply (le_true _ _ _ _ V (isval_sub _ _ _ _ (isval_int c) (isval_int 1))).
    change (inject_Z 1) with 1.
    apply Q.max_lub; [lra | apply Q.le_min_l].
  - apply (le_true _ _ _ _ V V'). apply gridX_mono; assumption.
Qed.

Lemma round_trip_X (q : Q) (gx c : Z) :
  ~ q == 0 -> (0 <= gx <= c - 1)%Z ->
  Qmax 0 (Qmin (inject_Z c - 1) (roundQ (inject_Z gx * q / q))) == inject_Z gx.
Proof.
  intros Hq [L U].
  assert (E : roundQ (inject_Z gx * q / q) == inject_Z gx).
  { unfold roundQ. rewrite (Qdiv_mult_l _ _ Hq). apply roundQ_int. }
  rewrite E.
  assert (L' : 0 <= inject_Z gx).
  { change 0 with (inject_Z 0). rewrite <- Zle_Qle. exact L. }
  assert (U' : inject_Z gx <= inject_Z c - 1).
  { assert (U2 : inject_Z gx <= inject_Z (c - 1)) by (rewrite <- Zle_Qle; exact U).
    unfold Z.sub in U2. rewrite inject_Z_plus, inject_Z_opp in U2.
    change (inject_Z 1) with 1 in U2. lra. }
  rewrite (Q.min_r _ _ U'). apply Q.max_r. exact L'.
Qed.

(** C6.  Round trip: for a grid position [(gx, gy)] of a grid with
    [columns] columns (integers, [0 <= gx <= columns - 1], [0 <= gy]) and
    finite non-zero cell sizes, [pixelToGridX(gx * cellWidth) === gx] and
    [pixelToGridY(gy * cellHeight) === gy]. *)
Theorem grid_pixel_round_trip :
  forall (cellWidth cellHeight : Q) (columns gx gy : Z),
    ~ cellWidth == 0 -> ~ cellHeight == 0 ->
    (0 <= gx <= columns - 1)%Z -> (0 <= gy)%Z ->
    JS.eqb (Fixed.pixelToGridX (Num cellWidth) (int columns)
              (JS.mul (int gx) (Num cellWidth))) (int gx) = true /\
    JS.eqb (pixelToGridY (Num cellHeight)
              (JS.mul (int gy) (Num cellHeight))) (int gy) = true.
Proof.
  intros cw ch c gx gy Hcw Hch Hgx Hgy. split.
  - eapply eqb_true.
    + apply (pixelToGridX_val (Num cw) (int c) _ cw (inject_Z c)
               (inject_Z gx * cw) (isval_Num cw) Hcw (isval_int c)).
      apply (isval_mul _ _ _ _ (isval_int gx) (isval_Num cw)).
    + apply isval_int.
    + apply round_trip_X; assumption.
  - eapply eqb_true.
    + apply (pixelToGridY_val (Num ch) _ ch (inject_Z gy * ch) (isval_Num ch) Hch).
      apply (isval_mul _ _ _ _ (isval_int gy) (isval_Num ch)).
    + apply isval_int.
    + unfold roundQ. rewrite (Qdiv_mult_l _ _ Hch).
      fold (roundQ (inject_Z gy)). rewrite roundQ_int.
      apply Q.max_r. change 0 with (inject_Z 0). rewrite <- Zle_Qle. exact Hgy.
Qed.

(* ================================================================== *)
(** ** Gestures *)

Section Runs.

Variable c : Component.

Lemma run_app (l1 l2 : list (Env * Event)) (st : GestureState) :
  run c (l1 ++ l2) st =
  (fst (run c l2 (fst (run c l1 st))),
   snd (run c l1 st) ++ snd (run c l2 (fst (run c l1 st)))).
Proof.
  revert st. induction l1 as [|[env ev] l1 IH]; intros st; simpl.
  - destruct (run c l2 st); reflexivity.
  - destruct (stepOf c env ev st) as [st1 acts].
    rewrite IH.
    destruct (run c l1 st1) as [st2 log]. simpl.
    reflexivity.
Qed.

Lemma step_move (env : Env) (e : MouseEvent) (st : GestureState) :
  stepOf c env (MouseMove e) st =
  (match drag st with
   | Some _ => handleMoveOf c env st e
   | None => st
   end,
   match resize st with
   | Some _ => handleResizeOf c env st e
   | None => []
   end).
Proof. destruct c; reflexivity. Qed.

Lemma step_up (st : GestureState) (env : Env) :
  stepOf c env MouseUp st =
  (mkGesture None None,
   match drag st with
   | Some d => [Move (drag_id d) (gridX d) (gridY d)]
   | None => []
   end).
Proof.
  destruct c, st as [[d|] [r|]]; reflexivity.
Qed.

Lemma handleMove_preview (env : Env) (e : MouseEvent) (d : DragState)
  (r : option ResizeState) :
  handleMoveOf c env (mkGesture (Some d) r) e =
  match computedPreview c env e with
  | Some p =>
      mkGesture (Some (mkDrag (drag_id d) (startX d) (startY d) (fst p) (snd p))) r
  | None => mkGesture (Some d) r
  end.
Proof.
  destruct c;
    cbv [handleMoveOf Fluid.handleMove Fixed.handleMove computedPreview drag];
    destruct (containerRef env); reflexivity.
Qed.

Lemma handleResize_tick (env : Env) (e : MouseEvent) (d : option DragState)
  (r : ResizeState) :
  handleResizeOf c env (mkGesture d (Some r)) e = resizeTick c (resize_id r) env e.
Proof.
  destruct c;
    cbv [handleResizeOf Fluid.handleResize Fixed.handleResize resizeTick resize];
    destruct (containerRef env); try reflexivity;
    destruct (findItem (resize_id r) (items (snapshot env))); reflexivity.
Qed.

(** Pointer-moves while only a drag is active: nothing is dispatched
    and the preview follows [lastPreview]. *)
Lemma run_drag_moves (moves : list (Env * MouseEvent)) (d : DragState) :
  run c (asMoves moves) (mkGesture (Some d) None) =
  (mkGesture
     (Some (mkDrag (drag_id d) (startX d) (startY d)
              (fst (lastPreview c (gridX d, gridY d) moves))
              (snd (lastPreview c (gridX d, gridY d) moves))))
     None,
   map (fun _ => []) moves).
Proof.
  revert d. induction moves as [|[env e] moves IH]; intros d.
  - destruct d; reflexivity.
  - cbn [asMoves map run fst snd]. rewrite step_move. cbn [drag resize].
    rewrite handleMove_preview.
    cbn [lastPreview].
    destruct (computedPreview c env e) as [p|].
    + fold (asMoves moves). rewrite IH. cbn. destruct p; reflexivity.
    + fold (asMoves moves). rewrite IH. reflexivity.
Qed.

(** Pointer-moves while only a resize is active: the state stays and
    every tick dispatches [resizeTick]. *)
Lemma run_resize_moves (moves : list (Env * MouseEvent)) (r : ResizeState) :
  run c (asMoves moves) (mkGesture None (Some r)) =
  (mkGesture None (Some r),
   map (fun m => resizeTick c (resize_id r) (fst m) (snd m)) moves).
Proof.
  induction moves as [|[env e] moves IH].
  - reflexivity.
  - cbn [asMoves map run fst snd]. rewrite step_move. cbn [drag resize].
    rewrite handleResize_tick.
    fold (asMoves moves). rewrite IH. reflexivity.
Qed.

(** Window events with no gesture active do nothing. *)
Lemma run_idle (evs : list (Env * Event)) :
  forallb (fun p => windowEvent (snd p)) evs = true ->
  run c evs Idle = (Idle, map (fun _ => []) evs).
Proof.
  induction evs as [|[env ev] evs IH]; intros H.
  - reflexivity.
  - cbn [forallb snd] in H. apply andb_true_iff in H. destruct H as [Hw H].
    cbn [run map]. destruct ev; try discriminate.
    + rewrite step_move. cbn [drag resize Idle]. rewrite (IH H). reflexivity.
    + rewrite step_up. cbn [drag Idle]. fold Idle. rewrite (IH H). reflexivity.
Qed.

Lemma step_panel_down (env : Env) (e : MouseEvent) (item : GridItem)
  (st : GestureState) :
  draggable env = true -> button e = 0%Z ->
  stepOf c env (PanelMouseDown e item) st =
  (mkGesture (Some (mkDrag (id item) (clientX e) (clientY e) (x item) (y item)))
     (resize st), []).
Proof.
  intros Hd Hb. destruct c; simpl; unfold onPanelMouseDown;
    rewrite Hd, Hb; reflexivity.
Qed.

Lemma step_handle_down (env : Env) (e : MouseEvent) (item : GridItem)
  (st : GestureState) :
  resizable env = true -> button e = 0%Z ->
  stepOf c env (ResizeHandleMouseDown e item) st =
  (mkGesture (drag st)
     (Some (mkResize (id item) (w item) (h item) (clientX e) (clientY e))), []).
Proof.
  intros Hd Hb. destruct c; simpl; unfold onResizeHandleMouseDown;
    rewrite Hd, Hb; reflexivity.
Qed.

End Runs.

(** When a render comes before every event (the case [run] describes),
    a drag gesture (primary-button pointer-down on a panel with dragging
    enabled, any sequence of pointer-moves, pointer-up, each event in any
    environment) dispatches nothing at the pointer-down and at the
    pointer-moves, and at the pointer-up exactly one move action with the
    item's id and the last computed preview position, whatever that
    position is; the component is idle afterwards.  Without that render
    the pointer-up reads an earlier position (see the section on renders
    and events in any order). *)
Theorem drag_commits_once_on_pointer_up :
  forall (c : Component) (env0 : Env) (e0 : MouseEvent) (item : GridItem)
         (moves : list (Env * MouseEvent)) (envUp : Env),
    draggable env0 = true -> button e0 = 0%Z ->
    run c ((env0, PanelMouseDown e0 item) :: asMoves moves ++ [(envUp, MouseUp)])
        Idle
    = (Idle,
       [] :: map (fun _ => []) moves ++
       [[Move (id item)
           (fst (lastPreview c (x item, y item) moves))
           (snd (lastPreview c (x item, y item) moves))]]).
Proof.
  intros c env0 e0 item moves envUp Hd Hb.
  cbn [run]. rewrite (step_panel_down c env0 e0 item Idle Hd Hb).
  cbn [resize Idle]. rewrite run_app, run_drag_moves.
  cbn [fst snd run]. rewrite step_up. reflexivity.
Qed.

(** C10.  A drag gesture whose pointer-up follows the pointer-down with
    no pointer-move in between dispatches exactly one move action, with
    the item's [x] and [y] as captured at pointer-down, unclamped
    (whatever numbers they are). *)
Theorem drag_without_move_commits_captured_position :
  forall (c : Component) (env0 envUp : Env) (e0 : MouseEvent) (item : GridItem),
    draggable env0 = true -> button e0 = 0%Z ->
    run c [(env0, PanelMouseDown e0 item); (envUp, MouseUp)] Idle
    = (Idle, [[]; [Move (id item) (x item) (y item)]]).
Proof.
  intros c env0 envUp e0 item Hd Hb.
  cbn [run]. rewrite (step_panel_down c env0 e0 item Idle Hd Hb).
  rewrite step_up. reflexivity.
Qed.

(** C3, amended.  In a resize gesture (primary-button pointer-down on a
    resize handle with resizing enabled, pointer-moves, pointer-up) the
    pointer-down dispatches nothing; every pointer-move tick whose
    container is mounted and whose item is in that tick's snapshot
    dispatches exactly one resize action, computed from the item as it is
    in that tick's snapshot, and every other tick dispatches nothing
    ([resizeTick]); after the ticks the resize state is still the one
    captured at pointer-down; the pointer-up dispatches nothing, and
    neither does any window event after it. *)
Theorem resize_commits_on_every_ready_tick :
  forall (c : Component) (env0 : Env) (e0 : MouseEvent) (item : GridItem)
         (moves : list (Env * MouseEvent)) (envUp : Env)
         (later : list (Env * Event)),
    resizable env0 = true -> button e0 = 0%Z ->
    forallb (fun p => windowEvent (snd p)) later = true ->
    run c ((env0, ResizeHandleMouseDown e0 item) :: asMoves moves) Idle
    = (mkGesture None
         (Some (mkResize (id item) (w item) (h item) (clientX e0) (clientY e0))),
       [] :: map (fun m => resizeTick c (id item) (fst m) (snd m)) moves) /\
    run c ((env0, ResizeHandleMouseDown e0 item)
             :: asMoves moves ++ (envUp, MouseUp) :: later) Idle
    = (Idle,
       [] :: map (fun m => resizeTick c (id item) (fst m) (snd m)) moves ++
       [] :: map (fun _ => []) later).
Proof.
  intros c env0 e0 item moves envUp later Hr Hb Hl. split.
  - cbn [run]. rewrite (step_handle_down c env0 e0 item Idle Hr Hb).
    cbn [drag Idle]. rewrite run_resize_moves. reflexivity.
  - cbn [run]. rewrite (step_handle_down c env0 e0 item Idle Hr Hb).
    cbn [drag Idle]. rewrite run_app, run_resize_moves.
    cbn [fst snd run resize_id]. rewrite step_up. cbn [drag]. fold Idle.
    rewrite (run_idle c later Hl). reflexivity.
Qed.

(** C8.  A resize pointer-move tick whose item is not in the current
    snapshot, or whose container is not mounted, dispatches nothing and
    leaves the resize state as it is; with no drag active at the same
    time the whole gesture state is unchanged. *)
Theorem resize_tick_skipped_without_item_or_container :
  forall (c : Component) (env : Env) (st : GestureState) (e : MouseEvent)
         (r : ResizeState),
    resize st = Some r ->
    findItem (resize_id r) (items (snapshot env)) = None \/
    containerRef env = None ->
    handleResizeOf c env st e = [] /\
    snd (stepOf c env (MouseMove e) st) = [] /\
    resize (fst (stepOf c env (MouseMove e) st)) = resize st /\
    (drag st = None -> fst (stepOf c env (MouseMove e) st) = st).
Proof.
  intros c env [d r0] e r Hr Hmiss. cbn [resize] in Hr. subst r0.
  assert (E : handleResizeOf c env (mkGesture d (Some r)) e = []).
  { rewrite handleResize_tick. unfold resizeTick.
    destruct Hmiss as [H|H]; rewrite H; [destruct (containerRef env)|];
      reflexivity. }
  rewrite step_move. cbn [fst snd drag resize].
  repeat split; try assumption.
  - destruct d as [d|]; [|reflexivity].
    rewrite handleMove_preview.
    destruct (computedPreview c env e); reflexivity.
  - intros ->. reflexivity.
Qed.

(* ================================================================== *)
(** ** Ranges of the dispatched fields *)

Section ResizeTick.

Variables (c : Component) (env : Env) (rect : DOMRect) (item : GridItem)
          (e : MouseEvent).

Lemma computedWidth_val (cw cx ix px l : Q) :
  isval (cellWidthEff c env rect) cw -> ~ cw == 0 ->
  isval (columnsOf c env) cx -> isval (x item) ix ->
  isval (clientX e) px -> isval (left rect) l ->
  isval (fst (computedSize c env rect item e))
        (Qmin (cx - ix) (Qmax 1 (roundQ (Qmax cw (px - l - ix * cw) / cw)))).
Proof.
  intros Hcw Hne Hcx Hix Hpx Hl.
  unfold computedSize, Fixed.pixelToGridW. cbn [fst].
  apply isval_min.
  - apply isval_sub; assumption.
  - apply (isval_max _ _ _ _ (isval_int 1)).
    apply isval_round, isval_div; [|assumption|assumption].
    apply isval_max; [assumption|].
    apply isval_sub; [apply isval_sub; assumption|].
    apply isval_mul; assumption.
Qed.

Lemma computedHeight_val (ch iy py t : Q) :
  isval (cellHeight env) ch -> ~ ch == 0 ->
  isval (y item) iy -> isval (clientY e) py -> isval (top rect) t ->
  isval (snd (computedSize c env rect item e))
        (Qmax 1 (roundQ (Qmax ch (py - t - iy * ch) / ch))).
Proof.
  intros Hch Hne Hiy Hpy Ht.
  unfold computedSize, pixelToGridH. cbn [snd].
  apply (isval_max _ _ _ _ (isval_int 1)).
  apply isval_round, isval_div; [|assumption|assumption].
  apply isval_max; [assumption|].
  apply isval_sub; [apply isval_sub; assumption|].
  apply isval_mul; assumption.
Qed.

Lemma resizeTick_ready (target : string) :
  containerRef env = Some rect ->
  findItem target (items (snapshot env)) = Some item ->
  resizeTick c target env e =
  [Resize target (fst (computedSize c env rect item e))
                 (snd (computedSize c env rect item e))].
Proof. intros Hc Hf. unfold resizeTick. rewrite Hc, Hf. reflexivity. Qed.

End ResizeTick.

Lemma gt_true (a b : number) (p q : Q) :
  isval a p -> isval b q -> q < p -> JS.gt a b = true.
Proof.
  intros Ha Hb L. rewrite (gt_isval _ _ _ _ Ha Hb).
  destruct (Qle_bool p q) eqn:E; [|reflexivity].
  apply Qle_bool_iff in E. lra.
Qed.

Lemma min_never_exceeds (cols ix R : number) :
  JS.gt (JS.add ix (Math.min (JS.sub cols ix) R)) cols = false.
Proof.
  destruct cols as [| | |cq], ix as [| | |iq], R as [| | |rq];
    cbn [JS.sub Math.min JS.add JS.gt]; try reflexivity.
  - apply negb_false_iff, Qle_bool_iff. lra.
  - destruct (Qle_bool (cq - iq) rq) eqn:B; cbn [JS.add JS.gt];
      apply negb_false_iff, Qle_bool_iff.
    + lra.
    + apply Qle_bool_false in B. lra.
Qed.

(** C1.  A resize pointer-move tick that dispatches (gesture active,
    container mounted, item in the snapshot) dispatches exactly one
    resize action, in both components.  For whatever numbers the pointer
    position, [item.x], [columns] and the cell size are, its width [w]
    never makes [item.x + w > columns] true; and for a finite pointer
    position, finite [item.x] and [columns] and a finite non-zero cell
    width, [item.x + w <= columns] is true. *)
Theorem resize_width_stays_within_columns :
  forall (c : Component) (env : Env) (st : GestureState) (e : MouseEvent)
         (r : ResizeState) (rect : DOMRect) (item : GridItem),
    resize st = Some r ->
    containerRef env = Some rect ->
    findItem (resize_id r) (items (snapshot env)) = Some item ->
    exists rw rh : number,
      handleResizeOf c env st e = [Resize (resize_id r) rw rh] /\
      JS.gt (JS.add (x item) rw) (columnsOf c env) = false /\
      (forall cw : Q,
          finite (clientX e) -> finite (left rect) ->
          finite (x item) -> finite (columnsOf c env) ->
          isval (cellWidthEff c env rect) cw -> ~ cw == 0 ->
          JS.le (JS.add (x item) rw) (columnsOf c env) = true).
Proof.
  intros c env [d r0] e r rect item Hr Hrect Hfind.
  cbn [resize] in Hr. subst r0.
  exists (fst (computedSize c env rect item e)),
         (snd (computedSize c env rect item e)).
  split; [|split].
  - rewrite handleResize_tick. apply resizeTick_ready; assumption.
  - unfold computedSize. cbn [fst]. apply min_never_exceeds.
  - intros cw Hpx Hl Hix Hcx Hcw Hne.
    destruct (finite_isval _ Hpx) as [px Vpx].
    destruct (finite_isval _ Hl) as [l Vl].
    destruct (finite_isval _ Hix) as [ix Vix].
    destruct (finite_isval _ Hcx) as [cx Vcx].
    assert (V := computedWidth_val c env rect item e cw cx ix px l
                   Hcw Hne Vcx Vix Vpx Vl).
    apply (le_true _ _ _ _ (isval_add _ _ _ _ Vix V) Vcx).
    assert (M := Q.le_min_l (cx - ix)
                   (Qmax 1 (roundQ (Qmax cw (px - l - ix * cw) / cw)))).
    lra.
Qed.

(* ================================================================== *)
(** ** Scenarios, the hook, and inputs outside the stated ranges *)

Lemma round_exact (a : number) (p : Q) (z : Z) :
  isval a p -> Qfloor (p + (1 # 2)) = z -> Math.round a = int z.
Proof.
  destruct a as [| | |p']; cbn [isval]; try tauto.
  intros E F. unfold Math.round, int. rewrite E, F. reflexivity.
Qed.

Lemma min_pick_r (a : number) (p q : Q) :
  isval a p -> q < p -> Math.min a (Num q) = Num q.
Proof.
  destruct a as [| | |p']; cbn [isval]; try tauto.
  intros E L. cbn [Math.min].
  destruct (Qle_bool p' q) eqn:B; [|reflexivity].
  apply Qle_bool_iff in B. rewrite E in B. lra.
Qed.

(** C7.  Scenario B: with the resized item at (0, 0), four columns, a
    cell of 100 by 100 pixels and the pointer at the container-relative
    pixel (250, 250), a resize pointer-move tick dispatches exactly
    [{ type: "resize", id, w: 3, h: 3 }], in both components. *)
Theorem resize_scenario_B :
  forall (c : Component) (env : Env) (st : GestureState) (e : MouseEvent)
         (r : ResizeState) (rect : DOMRect) (item : GridItem),
    resize st = Some r ->
    containerRef env = Some rect ->
    findItem (resize_id r) (items (snapshot env)) = Some item ->
    isval (x item) 0 -> isval (y item) 0 ->
    isval (columnsOf c env) 4 ->
    isval (cellWidthEff c env rect) 100 -> isval (cellHeight env) 100 ->
    isval (JS.sub (clientX e) (left rect)) 250 ->
    isval (JS.sub (clientY e) (top rect)) 250 ->
    handleResizeOf c env st e = [Resize (resize_id r) (int 3) (int 3)].
Proof.
  intros c env [d r0] e r rect item Hr Hrect Hfind Hx Hy Hcols Hcw Hch Hpx Hpy.
  cbn [resize] in Hr. subst r0.
  rewrite handleResize_tick, (resizeTick_ready c env rect item e _ Hrect Hfind).
  assert (R : forall v, v == 100 ->
            Qfloor (Qmax v (250 - 0 * v) / v + (1 # 2)) = 3%Z).
  { intros v Ev. rewrite (Qfloor_comp _ (inject_Z 3)); [apply Qfloor_Z|].
    rewrite Ev. rewrite (Q.max_r 100 (250 - 0 * 100)) by lra.
    reflexivity. }
  assert (Ew : fst (computedSize c env rect item e) = int 3).
  { unfold computedSize, Fixed.pixelToGridW. cbn [fst].
    rewrite (round_exact _ (Qmax 100 (250 - 0 * 100) / 100) 3).
    - apply (min_pick_r _ (4 - 0)); [apply isval_sub; assumption | reflexivity].
    - apply isval_div; [|assumption|discriminate].
      apply isval_max; [assumption|].
      apply isval_sub; [assumption|]. apply isval_mul; assumption.
    - apply R. reflexivity. }
  assert (Eh : snd (computedSize c env rect item e) = int 3).
  { unfold computedSize, pixelToGridH. cbn [snd].
    rewrite (round_exact _ (Qmax 100 (250 - 0 * 100) / 100) 3).
    - reflexivity.
    - apply isval_div; [|assumption|discriminate].
      apply isval_max; [assumption|].
      apply isval_sub; [assumption|]. apply isval_mul; assumption.
    - apply R. reflexivity. }
  rewrite Ew, Eh. reflexivity.
Qed.

(** *** useLayoutState *)

Lemma current_hook_resyncs (stores : Stores) (store : StoreRef) (hk : Hook) :
  depsChanged store hk = true ->
  UseLayoutState.sync stores store hk = (mkHook (stores store) (Some store), stores store).
Proof.
  intros H. unfold UseLayoutState.sync, UseLayoutState.commitEffects.
  rewrite H. reflexivity.
Qed.

Lemma legacy_hook_keeps_state (stores : Stores) (store : StoreRef) (hk : Hook) :
  snd (UseLayoutStateLegacy.sync stores store hk) = state hk.
Proof.
  unfold UseLayoutStateLegacy.sync, UseLayoutStateLegacy.commitEffects.
  destruct (depsChanged store hk); reflexivity.
Qed.

Lemma notify_refreshes (stores : Stores) (store : StoreRef) (hk : Hook) :
  effectStore hk = Some store ->
  render (notify stores store hk) = stores store.
Proof.
  intros H. unfold notify. rewrite H, Nat.eqb_refl. reflexivity.
Qed.

(** C9.  The hook mounted with store 0 and then rendered with store 1,
    a different store with a different snapshot.  After one
    synchronisation cycle the revision in [useLayoutState.ts] returns the
    snapshot of store 1; the other revision still returns the snapshot of
    store 0, also after a further cycle. *)
Theorem store_swap_snapshot :
  let first := mountHook twoStores 0%nat in
  let legacy := fst (UseLayoutStateLegacy.sync twoStores 0%nat first) in
  let current := fst (UseLayoutState.sync twoStores 0%nat first) in
  twoStores 0%nat = snapshotOne /\
  twoStores 1%nat = snapshotTwo /\
  snapshotOne <> snapshotTwo /\
  snd (UseLayoutState.sync twoStores 1%nat current) = snapshotTwo /\
  snd (UseLayoutStateLegacy.sync twoStores 1%nat legacy) = snapshotOne /\
  snd (UseLayoutStateLegacy.sync twoStores 1%nat
         (fst (UseLayoutStateLegacy.sync twoStores 1%nat legacy))) = snapshotOne.
Proof.
  cbv zeta. repeat split; try reflexivity. discriminate.
Qed.

(** *** Counterexamples *)

(** C3 as stated fails: the pointer-move tick of this resize gesture
    finds its item removed from the snapshot and dispatches nothing,
    while the gesture is still active. *)
Lemma resize_tick_on_removed_item_dispatches_nothing :
  let gesture :=
    [(gridEnv 4 [itemB], ResizeHandleMouseDown (pointer 195 195) itemB);
     (gridEnv 4 [], MouseMove (pointer 250 250))] in
  resize (fst (run FluidLayout gesture Idle)) <> None /\
  snd (run FluidLayout gesture Idle) = [[]; []].
Proof. cbv zeta. split; [discriminate | reflexivity]. Qed.

(** C4 as stated fails.  With the store's twelve columns shown as four,
    resizing the item at column 6 dispatches the width [-2], and dragging
    it without a pointer-move dispatches the column 6, which is beyond
    the four columns; in a container measured zero pixels wide a resize
    tick with the pointer on the left edge dispatches the width NaN. *)
Lemma dispatched_fields_out_of_range :
  dispatched FluidLayout
    [(overrideEnv, ResizeHandleMouseDown (pointer 795 195) itemC);
     (overrideEnv, MouseMove (pointer 650 150))] Idle
  = [Resize (id itemC) (int (-2)) (int 2)] /\
  validAction (columnsOf FluidLayout overrideEnv)
    (Resize (id itemC) (int (-2)) (int 2)) = false /\
  dispatched FluidLayout
    [(overrideEnv, PanelMouseDown (pointer 650 50) itemC);
     (overrideEnv, MouseUp)] Idle
  = [Move (id itemC) (int 6) (int 0)] /\
  validAction (columnsOf FluidLayout overrideEnv)
    (Move (id itemC) (int 6) (int 0)) = false /\
  dispatched FluidLayout
    [(collapsedEnv, ResizeHandleMouseDown (pointer 0 0) itemB);
     (collapsedEnv, MouseMove (pointer 0 150))] Idle
  = [Resize (id itemB) NaN (int 2)] /\
  validAction (columnsOf FluidLayout collapsedEnv)
    (Resize (id itemB) NaN (int 2)) = false.
Proof. repeat split; reflexivity. Qed.

(* ================================================================== *)
(** ** The theorems at concrete inputs *)

Lemma nonzero_100 : ~ 100 == 0.
Proof. intros H. discriminate H. Defined.

(** Scenario B in the fixed component, the pointer dragged beyond the
    last column: the width stays within the four columns. *)
Lemma resize_width_stays_within_columns_witness :
  exists rw rh : number,
    handleResizeOf FixedLayout (gridEnv 4 [itemB]) resizingB (pointer 450 250)
    = [Resize (id itemB) rw rh] /\
    JS.gt (JS.add (x itemB) rw) (columnsOf FixedLayout (gridEnv 4 [itemB]))
    = false /\
    JS.le (JS.add (x itemB) rw) (columnsOf FixedLayout (gridEnv 4 [itemB]))
    = true.
Proof.
  destruct (resize_width_stays_within_columns FixedLayout (gridEnv 4 [itemB])
              resizingB (pointer 450 250) resizeB (rectOfWidth 400) itemB
              eq_refl eq_refl eq_refl) as (rw & rh & E & G & L).
  exists rw, rh. repeat split; [exact E | exact G |].
  apply (L 100); try reflexivity. exact nonzero_100.
Defined.

(** Scenario A: item at (2, 1), pointer moved to the pixel of grid (4, 3). *)
Lemma drag_commits_once_on_pointer_up_witness :
  run FluidLayout
    ((gridEnv 12 [itemA], PanelMouseDown (pointer 250 150) itemA)
       :: asMoves [(gridEnv 12 [itemA], pointer 310 220);
                   (gridEnv 12 [itemA], pointer 400 300)]
       ++ [(gridEnv 12 [itemA], MouseUp)]) Idle
  = (Idle, [[]; []; []; [Move (id itemA) (int 4) (int 3)]]).
Proof.
  exact (drag_commits_once_on_pointer_up FluidLayout (gridEnv 12 [itemA])
           (pointer 250 150) itemA
           [(gridEnv 12 [itemA], pointer 310 220);
            (gridEnv 12 [itemA], pointer 400 300)]
           (gridEnv 12 [itemA]) eq_refl eq_refl).
Defined.

Lemma drag_without_move_commits_captured_position_witness :
  run FluidLayout
    [(overrideEnv, PanelMouseDown (pointer 650 50) itemC); (overrideEnv, MouseUp)]
    Idle
  = (Idle, [[]; [Move (id itemC) (int 6) (int 0)]]).
Proof.
  exact (drag_without_move_commits_captured_position FluidLayout overrideEnv
           overrideEnv (pointer 650 50) itemC eq_refl eq_refl).
Defined.

(** A resize gesture whose second tick finds the item removed. *)
Lemma resize_commits_on_every_ready_tick_witness :
  run FixedLayout
    ((gridEnv 4 [itemB], ResizeHandleMouseDown (pointer 195 195) itemB)
       :: asMoves [(gridEnv 4 [itemB], pointer 250 250);
                   (gridEnv 4 [], pointer 350 250)]) Idle
  = (resizingB, [[]; [Resize (id itemB) (int 3) (int 3)]; []]) /\
  run FixedLayout
    ((gridEnv 4 [itemB], ResizeHandleMouseDown (pointer 195 195) itemB)
       :: asMoves [(gridEnv 4 [itemB], pointer 250 250);
                   (gridEnv 4 [], pointer 350 250)]
       ++ (gridEnv 4 [itemB], MouseUp)
       :: [(gridEnv 4 [itemB], MouseMove (pointer 380 250));
           (gridEnv 4 [itemB], MouseUp)]) Idle
  = (Idle, [[]; [Resize (id itemB) (int 3) (int 3)]; []; []; []; []]).
Proof.
  exact (resize_commits_on_every_ready_tick FixedLayout (gridEnv 4 [itemB])
           (pointer 195 195) itemB
           [(gridEnv 4 [itemB], pointer 250 250); (gridEnv 4 [], pointer 350 250)]
           (gridEnv 4 [itemB])
           [(gridEnv 4 [itemB], MouseMove (pointer 380 250));
            (gridEnv 4 [itemB], MouseUp)]
           eq_refl eq_refl eq_refl).
Defined.

Lemma resize_tick_skipped_witness :
  let st := resizingB in
  handleResizeOf FluidLayout (gridEnv 4 []) st (pointer 250 250) = [] /\
  snd (stepOf FluidLayout (gridEnv 4 []) (MouseMove (pointer 250 250)) st) = [] /\
  resize (fst (stepOf FluidLayout (gridEnv 4 []) (MouseMove (pointer 250 250)) st))
  = resize st /\
  (drag st = None ->
   fst (stepOf FluidLayout (gridEnv 4 []) (MouseMove (pointer 250 250)) st) = st).
Proof.
  exact (resize_tick_skipped_without_item_or_container FluidLayout (gridEnv 4 [])
           resizingB (pointer 250 250) resizeB eq_refl (or_introl eq_refl)).
Defined.

Lemma pixelToGridX_in_range_and_monotone_witness :
  JS.le (int 0) (Fixed.pixelToGridX (int 100) (int 4) (int 130)) = true /\
  JS.le (Fixed.pixelToGridX (int 100) (int 4) (int 130))
        (JS.sub (int 4) (int 1)) = true /\
  JS.le (Fixed.pixelToGridX (int 100) (int 4) (int 130))
        (Fixed.pixelToGridX (int 100) (int 4) (int 900)) = true.
Proof.
  apply (pixelToGridX_in_range_and_monotone 100 4 130 900).
  - exact nonzero_100.
  - reflexivity.
  - discriminate.
  - discriminate.
Defined.

Lemma grid_pixel_round_trip_witness :
  JS.eqb (Fixed.pixelToGridX (int 100) (int 4) (JS.mul (int 3) (int 100)))
         (int 3) = true /\
  JS.eqb (pixelToGridY (int 100) (JS.mul (int 7) (int 100))) (int 7) = true.
Proof.
  apply (grid_pixel_round_trip 100 100 4 3 7).
  - exact nonzero_100.
  - exact nonzero_100.
  - split; discriminate.
  - discriminate.
Defined.

Lemma resize_scenario_B_witness :
  handleResizeOf FixedLayout (gridEnv 4 [itemB])
    resizingB
    (pointer 250 250)
  = [Resize (id itemB) (int 3) (int 3)].
Proof.
  apply (resize_scenario_B FixedLayout (gridEnv 4 [itemB]) resizingB
           (pointer 250 250) resizeB (rectOfWidth 400) itemB); reflexivity.
Defined.

(* ================================================================== *)
(** ** Further properties of the coordinate transform *)

Lemma max_never_below (z : Z) (n : number) :
  JS.gt (int z) (Math.max (int z) n) = false.
Proof.
  destruct n as [| | |q]; cbn [int Math.max JS.gt]; try reflexivity.
  - apply negb_false_iff, Qle_bool_iff, Qle_refl.
  - destruct (Qle_bool (inject_Z z) q) eqn:B; cbn [JS.gt].
    + rewrite B. reflexivity.
    + apply negb_false_iff, Qle_bool_iff, Qle_refl.
Qed.

(** X1.  For any three numbers whatsoever (NaN and the infinities
    included) the lower clamp of the four conversions holds in the sense
    that it is never undercut: [0 > pixelToGridX(p)] and
    [0 > pixelToGridY(p)] are never true, nor are [1 > pixelToGridW(p)]
    and [1 > pixelToGridH(p)]. *)
Theorem grid_conversions_never_below_bound :
  forall cell cols pixel : number,
    JS.gt (int 0) (Fixed.pixelToGridX cell cols pixel) = false /\
    JS.gt (int 0) (pixelToGridY cell pixel) = false /\
    JS.gt (int 1) (Fixed.pixelToGridW cell pixel) = false /\
    JS.gt (int 1) (pixelToGridH cell pixel) = false.
Proof.
  intros cell cols pixel.
  unfold Fixed.pixelToGridX, pixelToGridY, Fixed.pixelToGridW, pixelToGridH.
  repeat split; apply max_never_below.
Qed.

Lemma Qfloor_unique (v : Q) (k : Z) :
  inject_Z k <= v -> v < inject_Z k + 1 -> Qfloor v = k.
Proof.
  intros L U.
  assert (F1 := Qfloor_le v). assert (F2 := Qlt_floor v).
  rewrite inject_Z_plus in F2. change (inject_Z 1) with 1 in F2.
  assert (A : inject_Z (Qfloor v) < inject_Z (k + 1)).
  { rewrite inject_Z_plus. change (inject_Z 1) with 1. lra. }
  assert (B : inject_Z k < inject_Z (Qfloor v + 1)).
  { rewrite inject_Z_plus. change (inject_Z 1) with 1. lra. }
  rewrite <- Zlt_Qlt in A, B. lia.
Qed.

(** Rounding inside the snap zone of [k]. *)
Lemma roundQ_zone (cell d : Q) (k : Z) :
  0 < cell -> - (cell / 2) <= d -> d < cell / 2 ->
  roundQ ((inject_Z k * cell + d) / cell) == inject_Z k.
Proof.
  intros Hc L U. unfold roundQ.
  assert (Eh : cell / 2 == cell * (1 # 2)) by field.
  rewrite Eh in L, U.
  rewrite (Qfloor_unique _ k); [reflexivity| |].
  - assert (E : (inject_Z k * cell + d) / cell + (1 # 2)
                == inject_Z k + (d + cell * (1 # 2)) / cell) by (field; lra).
    rewrite E.
    assert (0 <= (d + cell * (1 # 2)) / cell).
    { apply Qle_shift_div_l; lra. }
    lra.
  - assert (E : (inject_Z k * cell + d) / cell + (1 # 2)
                == inject_Z k + (d + cell * (1 # 2)) / cell) by (field; lra).
    rewrite E.
    assert ((d + cell * (1 # 2)) / cell < 1).
    { apply Qlt_shift_div_r; lra. }
    lra.
Qed.

Lemma inject_Z_le_sub1 (a b : Z) : (a <= b - 1)%Z -> inject_Z a <= inject_Z b - 1.
Proof.
  intros H. assert (U : inject_Z a <= inject_Z (b - 1)) by (rewrite <- Zle_Qle; exact H).
  unfold Z.sub in U. rewrite inject_Z_plus, inject_Z_opp in U.
  change (inject_Z 1) with 1 in U. lra.
Qed.

Lemma inject_Z_nonneg (a b : Z) : (a <= b)%Z -> inject_Z a <= inject_Z b.
Proof. intros H. rewrite <- Zle_Qle. exact H. Qed.

Lemma pixelToGridW_val (cw pw : number) (q p : Q) :
  isval cw q -> ~ q == 0 -> isval pw p ->
  isval (Fixed.pixelToGridW cw pw) (Qmax 1 (roundQ (p / q))).
Proof.
  intros Hcw Hq Hp. unfold Fixed.pixelToGridW.
  apply (isval_max _ _ _ _ (isval_int 1)).
  apply isval_round. apply isval_div; assumption.
Qed.

Lemma pixelToGridH_val (ch ph : number) (q p : Q) :
  isval ch q -> ~ q == 0 -> isval ph p ->
  isval (pixelToGridH ch ph) (Qmax 1 (roundQ (p / q))).
Proof.
  intros Hch Hq Hp. unfold pixelToGridH.
  apply (isval_max _ _ _ _ (isval_int 1)).
  apply isval_round. apply isval_div; assumption.
Qed.

(** X3.  Snap zones.  With a positive cell size, every pixel value at
    most half a cell before, or at most 7/16 of a cell after, the [k]-th
    cell boundary converts to [k]: with [pixelToGridX] for
    [0 <= k <= columns - 1], with [pixelToGridY] for [0 <= k], with
    [pixelToGridW] and [pixelToGridH] for [1 <= k].  (Half a cell after
    the boundary the value converts to [k + 1]; the sixteenth of a cell
    below it is left out, where the rounding of the quotient decides.) *)
Theorem pointer_snaps_to_nearest_cell :
  forall (cell d : Q) (columns k : Z),
    0 < cell -> - (cell / 2) <= d -> d <= (7 # 16) * cell ->
    let pixel := Num (inject_Z k * cell + d) in
    ((0 <= k <= columns - 1)%Z ->
       JS.eqb (Fixed.pixelToGridX (Num cell) (int columns) pixel) (int k) = true) /\
    ((0 <= k)%Z ->
       JS.eqb (pixelToGridY (Num cell) pixel) (int k) = true) /\
    ((1 <= k)%Z ->
       JS.eqb (Fixed.pixelToGridW (Num cell) pixel) (int k) = true /\
       JS.eqb (pixelToGridH (Num cell) pixel) (int k) = true).
Proof.
  intros cell d columns k Hc L U16 pixel.
  assert (Hne : ~ cell == 0) by lra.
  assert (U : d < cell / 2).
  { assert (Eh : cell / 2 == cell * (1 # 2)) by field. rewrite Eh. lra. }
  assert (R := roundQ_zone cell d k Hc L U).
  assert (Vp : isval pixel (inject_Z k * cell + d)) by apply isval_Num.
  split; [intros [K0 K1]|split; [intros K0|intros K1; split]].
  -
    eapply eqb_true;
      [apply (pixelToGridX_val _ _ _ cell (inject_Z columns) _
                (isval_Num cell) Hne (isval_int columns) Vp)
      |apply isval_int|].
    rewrite R.
    rewrite (Q.min_r _ _ (inject_Z_le_sub1 _ _ K1)).
    apply Q.max_r. apply (inject_Z_nonneg 0 k K0).
  - eapply eqb_true;
      [apply (pixelToGridY_val _ _ cell _ (isval_Num cell) Hne Vp)
      |apply isval_int|].
    rewrite R. apply Q.max_r. apply (inject_Z_nonneg 0 k K0).
  - eapply eqb_true;
      [apply (pixelToGridW_val _ _ cell _ (isval_Num cell) Hne Vp)
      |apply isval_int|].
    rewrite R. apply Q.max_r. apply (inject_Z_nonneg 1 k K1).
  - eapply eqb_true;
      [apply (pixelToGridH_val _ _ cell _ (isval_Num cell) Hne Vp)
      |apply isval_int|].
    rewrite R. apply Q.max_r. apply (inject_Z_nonneg 1 k K1).
Qed.

Lemma roundQ_half_up (k : Z) (v : Q) :
  inject_Z k - (1 # 2) <= v -> inject_Z k <= roundQ v.
Proof.
  intros L. unfold roundQ. rewrite <- Zle_Qle.
  rewrite <- (Qfloor_Z k). apply Qfloor_resp_le. lra.
Qed.

Lemma roundQ_half_down (k : Z) (v : Q) :
  v < inject_Z k - (1 # 2) -> roundQ v <= inject_Z k - 1.
Proof.
  intros U. unfold roundQ.
  assert (F := Qfloor_le (v + (1 # 2))).
  assert (A : inject_Z (Qfloor (v + (1 # 2))) < inject_Z k) by lra.
  rewrite <- Zlt_Qlt in A.
  apply inject_Z_le_sub1. lia.
Qed.

Lemma Qdiv_lt_half (p cell : Q) (n : Q) :
  0 < cell -> p < n * cell -> p / cell < n.
Proof. intros Hc H. apply Qlt_shift_div_r; assumption. Qed.

Lemma Qdiv_ge (p cell : Q) (n : Q) :
  0 < cell -> n * cell <= p -> n <= p / cell.
Proof. intros Hc H. apply Qle_shift_div_l; assumption. Qed.

(** X4.  With a positive cell size and [columns >= 1]: every pixel value
    up to 7/16 of a cell (negative ones included) converts to column 0
    and row 0; every pixel value up to one cell and 7/16 converts to the
    size 1; every pixel value from half a cell before the last column's
    boundary on converts to column [columns - 1]. *)
Theorem pointer_beyond_the_grid_clamps :
  forall (cell p : Q) (columns : Z),
    0 < cell -> (1 <= columns)%Z ->
    (p <= (7 # 16) * cell ->
       JS.eqb (Fixed.pixelToGridX (Num cell) (int columns) (Num p)) (int 0) = true /\
       JS.eqb (pixelToGridY (Num cell) (Num p)) (int 0) = true) /\
    (p <= (23 # 16) * cell ->
       JS.eqb (Fixed.pixelToGridW (Num cell) (Num p)) (int 1) = true /\
       JS.eqb (pixelToGridH (Num cell) (Num p)) (int 1) = true) /\
    ((inject_Z columns - 1) * cell - cell / 2 <= p ->
       JS.eqb (Fixed.pixelToGridX (Num cell) (int columns) (Num p))
              (JS.sub (int columns) (int 1)) = true).
Proof.
  intros cell p columns Hc Hcols.
  assert (Hne : ~ cell == 0) by lra.
  assert (C1 : 1 <= inject_Z columns) by apply (inject_Z_nonneg 1 columns Hcols).
  assert (Eh : cell / 2 == cell * (1 # 2)) by field.
  split; [intros U; split|split; [intros U; split|]].
  - assert (R : roundQ (p / cell) <= inject_Z 1 - 1).
    { apply roundQ_half_down. change (inject_Z 1) with 1.
      assert (p / cell < 1 # 2) by (apply Qdiv_lt_half; lra). lra. }
    change (inject_Z 1) with 1 in R.
    eapply eqb_true;
      [apply (pixelToGridX_val _ _ _ cell (inject_Z columns) p
                (isval_Num cell) Hne (isval_int columns) (isval_Num p))
      |apply isval_int|].
    apply Q.max_l. eapply Qle_trans; [apply Q.le_min_r|].
    change (inject_Z 0) with 0. lra.
  - assert (R : roundQ (p / cell) <= inject_Z 1 - 1).
    { apply roundQ_half_down. change (inject_Z 1) with 1.
      assert (p / cell < 1 # 2) by (apply Qdiv_lt_half; lra). lra. }
    change (inject_Z 1) with 1 in R.
    eapply eqb_true;
      [apply (pixelToGridY_val _ _ cell p (isval_Num cell) Hne (isval_Num p))
      |apply isval_int|].
    apply Q.max_l. change (inject_Z 0) with 0. lra.
  - assert (R : roundQ (p / cell) <= inject_Z 2 - 1).
    { apply roundQ_half_down. change (inject_Z 2) with 2.
      assert (p / cell < 3 # 2) by (apply Qdiv_lt_half; lra). lra. }
    change (inject_Z 2) with 2 in R.
    eapply eqb_true;
      [apply (pixelToGridW_val _ _ cell p (isval_Num cell) Hne (isval_Num p))
      |apply isval_int|].
    apply Q.max_l. change (inject_Z 1) with 1. lra.
  - assert (R : roundQ (p / cell) <= inject_Z 2 - 1).
    { apply roundQ_half_down. change (inject_Z 2) with 2.
      assert (p / cell < 3 # 2) by (apply Qdiv_lt_half; lra). lra. }
    change (inject_Z 2) with 2 in R.
    eapply eqb_true;
      [apply (pixelToGridH_val _ _ cell p (isval_Num cell) Hne (isval_Num p))
      |apply isval_int|].
    apply Q.max_l. change (inject_Z 1) with 1. lra.
  - intros L. rewrite Eh in L.
    assert (R : inject_Z (columns - 1) <= roundQ (p / cell)).
    { apply roundQ_half_up.
      unfold Z.sub. rewrite inject_Z_plus, inject_Z_opp.
      change (inject_Z 1) with 1.
      assert (inject_Z columns + - (1) - (1 # 2) <= p / cell).
      { apply Qdiv_ge; lra. }
      lra. }
    unfold Z.sub in R. rewrite inject_Z_plus, inject_Z_opp in R.
    change (inject_Z 1) with 1 in R.
    eapply eqb_true;
      [apply (pixelToGridX_val _ _ _ cell (inject_Z columns) p
                (isval_Num cell) Hne (isval_int columns) (isval_Num p))
      |apply (isval_sub _ _ _ _ (isval_int columns) (isval_int 1))|].
    change (inject_Z 1) with 1.
    rewrite Q.min_l by lra. apply Q.max_r. lra.
Qed.

(** X5.  With a positive cell size, [pixelToGridY], [pixelToGridW] and
    [pixelToGridH] are non-decreasing in the pixel value. *)
Theorem size_and_row_conversions_monotone :
  forall (cell p p' : Q),
    0 < cell -> p <= p' ->
    JS.le (pixelToGridY (Num cell) (Num p)) (pixelToGridY (Num cell) (Num p')) = true /\
    JS.le (Fixed.pixelToGridW (Num cell) (Num p))
          (Fixed.pixelToGridW (Num cell) (Num p')) = true /\
    JS.le (pixelToGridH (Num cell) (Num p)) (pixelToGridH (Num cell) (Num p')) = true.
Proof.
  intros cell p p' Hc L.
  assert (Hne : ~ cell == 0) by lra.
  assert (M : roundQ (p / cell) <= roundQ (p' / cell)).
  { apply roundQ_mono, Qdiv_le_mono; assumption. }
  repeat split.
  - apply (le_true _ _ _ _
             (pixelToGridY_val _ _ cell p (isval_Num cell) Hne (isval_Num p))
             (pixelToGridY_val _ _ cell p' (isval_Num cell) Hne (isval_Num p'))).
    apply Q.max_le_compat_l, M.
  - apply (le_true _ _ _ _
             (pixelToGridW_val _ _ cell p (isval_Num cell) Hne (isval_Num p))
             (pixelToGridW_val _ _ cell p' (isval_Num cell) Hne (isval_Num p'))).
    apply Q.max_le_compat_l, M.
  - apply (le_true _ _ _ _
             (pixelToGridH_val _ _ cell p (isval_Num cell) Hne (isval_Num p))
             (pixelToGridH_val _ _ cell p' (isval_Num cell) Hne (isval_Num p'))).
    apply Q.max_le_compat_l, M.
Qed.

Lemma isval_eq_compat (n : number) (p q : Q) :
  isval n p -> p == q -> isval n q.
Proof.
  destruct n; cbn [isval]; try tauto. intros E1 E2. rewrite E1. exact E2.
Qed.

Lemma isInteger_isval (n : number) (z : Z) :
  isval n (inject_Z z) -> JS.isInteger n = true.
Proof.
  destruct n as [| | |q]; cbn [isval JS.isInteger]; try tauto.
  intros E. apply Qeq_bool_iff.
  rewrite (Qfloor_comp _ _ E), Qfloor_Z. exact E.
Qed.

Lemma Qmax_inject_Z (a b : Z) :
  Qmax (inject_Z a) (inject_Z b) == inject_Z (Z.max a b).
Proof.
  destruct (Z.le_ge_cases a b) as [H|H].
  - rewrite Z.max_r by exact H. apply Q.max_r. rewrite <- Zle_Qle. exact H.
  - rewrite Z.max_l by exact H. apply Q.max_l. rewrite <- Zle_Qle. exact H.
Qed.

Lemma Qmin_inject_Z (a b : Z) :
  Qmin (inject_Z a) (inject_Z b) == inject_Z (Z.min a b).
Proof.
  destruct (Z.le_ge_cases a b) as [H|H].
  - rewrite Z.min_l by exact H. apply Q.min_l. rewrite <- Zle_Qle. exact H.
  - rewrite Z.min_r by exact H. apply Q.min_r. rewrite <- Zle_Qle. exact H.
Qed.

(** X2.  For a finite pixel value, a finite non-zero cell size and an
    integer [columns], the four conversions return integers. *)
Theorem grid_conversions_yield_integers :
  forall (cell p : Q) (columns : Z),
    ~ cell == 0 ->
    JS.isInteger (Fixed.pixelToGridX (Num cell) (int columns) (Num p)) = true /\
    JS.isInteger (pixelToGridY (Num cell) (Num p)) = true /\
    JS.isInteger (Fixed.pixelToGridW (Num cell) (Num p)) = true /\
    JS.isInteger (pixelToGridH (Num cell) (Num p)) = true.
Proof.
  intros cell p columns Hne.
  set (r := Qfloor (p / cell + (1 # 2))).
  assert (Er : roundQ (p / cell) = inject_Z r) by reflexivity.
  repeat split.
  - apply (isInteger_isval _ (Z.max 0 (Z.min (columns - 1) r))).
    eapply isval_eq_compat;
      [apply (pixelToGridX_val _ _ _ cell (inject_Z columns) p
                (isval_Num cell) Hne (isval_int columns) (isval_Num p))|].
    rewrite Er.
    assert (E1 : inject_Z columns - 1 == inject_Z (columns - 1)).
    { unfold Z.sub. rewrite inject_Z_plus, inject_Z_opp. reflexivity. }
    rewrite E1, Qmin_inject_Z. apply (Qmax_inject_Z 0).
  - apply (isInteger_isval _ (Z.max 0 r)).
    eapply isval_eq_compat;
      [apply (pixelToGridY_val _ _ cell p (isval_Num cell) Hne (isval_Num p))|].
    rewrite Er. apply (Qmax_inject_Z 0).
  - apply (isInteger_isval _ (Z.max 1 r)).
    eapply isval_eq_compat;
      [apply (pixelToGridW_val _ _ cell p (isval_Num cell) Hne (isval_Num p))|].
    rewrite Er. apply (Qmax_inject_Z 1).
  - apply (isInteger_isval _ (Z.max 1 r)).
    eapply isval_eq_compat;
      [apply (pixelToGridH_val _ _ cell p (isval_Num cell) Hne (isval_Num p))|].
    rewrite Er. apply (Qmax_inject_Z 1).
Qed.

(* ================================================================== *)
(** ** Further properties of the gesture machine *)

Section Machine.

Variable c : Component.

Lemma step_down_panel_cases (env : Env) (e : MouseEvent) (item : GridItem)
  (st : GestureState) :
  stepOf c env (PanelMouseDown e item) st =
  (if negb (draggable env) || negb (button e =? 0)%Z then st
   else mkGesture
          (Some (mkDrag (id item) (clientX e) (clientY e) (x item) (y item)))
          (resize st), []).
Proof. destruct c; reflexivity. Qed.

Lemma step_down_handle_cases (env : Env) (e : MouseEvent) (item : GridItem)
  (st : GestureState) :
  stepOf c env (ResizeHandleMouseDown e item) st =
  (if negb (resizable env) || negb (button e =? 0)%Z then st
   else mkGesture (drag st)
          (Some (mkResize (id item) (w item) (h item) (clientX e) (clientY e))),
   []).
Proof. destruct c; reflexivity. Qed.

Lemma resizeTick_shape (target : string) (env : Env) (e : MouseEvent) :
  resizeTick c target env e = [] \/
  exists rw rh, resizeTick c target env e = [Resize target rw rh].
Proof.
  unfold resizeTick. destruct (containerRef env); [|left; reflexivity].
  destruct (findItem target (items (snapshot env))); [|left; reflexivity].
  right. eauto.
Qed.

End Machine.

(** X7.  If every pointer-down of a run arrives with its gesture disabled
    ([draggable] resp. [resizable] false) or with a button other than the
    primary one, the component stays idle and no event of the run
    dispatches anything. *)
Theorem disabled_or_secondary_pointer_down_starts_nothing :
  forall (c : Component) (evs : list (Env * Event)),
    forallb startsNothing evs = true ->
    run c evs Idle = (Idle, map (fun _ => []) evs).
Proof.
  intros c evs. induction evs as [|[env ev] evs IH]; intros H.
  - reflexivity.
  - cbn [forallb] in H. apply andb_true_iff in H. destruct H as [H1 H2].
    cbn [run map]. unfold startsNothing in H1. cbn [fst snd] in H1.
    destruct ev as [e item|e item|e|].
    + rewrite step_down_panel_cases, H1, (IH H2). reflexivity.
    + rewrite step_down_handle_cases, H1, (IH H2). reflexivity.
    + rewrite step_move. cbn [drag resize Idle]. rewrite (IH H2). reflexivity.
    + rewrite step_up. cbn [drag Idle]. fold Idle. rewrite (IH H2). reflexivity.
Qed.

Lemma step_actions :
  forall (c : Component) (env : Env) (ev : Event) (st : GestureState)
         (a : LayoutAction),
    In a (snd (stepOf c env ev st)) ->
    snd (stepOf c env ev st) = [a] /\
    match a with
    | Move i ax ay =>
        ev = MouseUp /\
        exists d, drag st = Some d /\ i = drag_id d /\ ax = gridX d /\ ay = gridY d
    | Resize i _ _ =>
        (exists e, ev = MouseMove e) /\
        exists r, resize st = Some r /\ i = resize_id r
    end.
Proof.
  intros c env ev [d r] a Hin.
  destruct ev as [e item|e item|e|].
  - rewrite step_down_panel_cases in Hin. destruct Hin.
  - rewrite step_down_handle_cases in Hin. destruct Hin.
  - rewrite step_move in *. cbn [snd drag resize] in *.
    destruct r as [r|]; [|destruct Hin].
    rewrite handleResize_tick in *.
    destruct (resizeTick_shape c (resize_id r) env e) as [E|(rw & rh & E)];
      rewrite E in *; [destruct Hin|].
    destruct Hin as [<-|[]].
    split; [reflexivity|]. split; [eauto|]. exists r. split; reflexivity.
  - rewrite step_up in *. cbn [snd drag] in *.
    destruct d as [d|]; [|destruct Hin].
    destruct Hin as [<-|[]].
    split; [reflexivity|]. split; [reflexivity|]. exists d. repeat split.
Qed.

(** X8.  From any gesture state, an event that dispatches an action
    dispatches exactly that one: a move only at a pointer-up, with the id
    and preview of the active drag; a resize only at a pointer-move, with
    the id of the active resize.  Pointer-downs dispatch nothing. *)
Theorem each_event_dispatches_at_most_its_own_action :
  forall (c : Component) (env : Env) (ev : Event) (st : GestureState)
         (a : LayoutAction),
    In a (snd (stepOf c env ev st)) ->
    snd (stepOf c env ev st) = [a] /\
    match a with
    | Move i ax ay =>
        ev = MouseUp /\
        exists d, drag st = Some d /\ i = drag_id d /\ ax = gridX d /\ ay = gridY d
    | Resize i _ _ =>
        (exists e, ev = MouseMove e) /\
        exists r, resize st = Some r /\ i = resize_id r
    end.
Proof. exact step_actions. Qed.

(** X9.  From any gesture state (a drag and a resize both active
    included) a pointer-up leaves the component idle, dispatching the
    move of the drag if there was one; the window events after it
    dispatch nothing. *)
Theorem pointer_up_ends_every_gesture :
  forall (c : Component) (env : Env) (st : GestureState)
         (later : list (Env * Event)),
    forallb (fun p => windowEvent (snd p)) later = true ->
    run c ((env, MouseUp) :: later) st =
    (Idle,
     match drag st with
     | Some d => [Move (drag_id d) (gridX d) (gridY d)]
     | None => []
     end :: map (fun _ => []) later).
Proof.
  intros c env st later H.
  cbn [run]. rewrite step_up. fold Idle. rewrite (run_idle c later H).
  reflexivity.
Qed.

(** Where the ids held by the gesture state come from. *)
Lemma step_ids (c : Component) (env : Env) (ev : Event) (st : GestureState) :
  (forall d', drag (fst (stepOf c env ev st)) = Some d' ->
     (exists d, drag st = Some d /\ drag_id d' = drag_id d) \/
     In (drag_id d') (panelDowns [(env, ev)])) /\
  (forall r', resize (fst (stepOf c env ev st)) = Some r' ->
     (exists r, resize st = Some r /\ resize_id r' = resize_id r) \/
     In (resize_id r') (handleDowns [(env, ev)])).
Proof.
  destruct st as [d r]. destruct ev as [e item|e item|e|].
  - rewrite step_down_panel_cases. cbn [fst panelDowns handleDowns].
    destruct (negb (draggable env) || negb (button e =? 0)%Z); cbn [drag resize];
      split; intros x' Hx; try (left; eauto; fail).
    injection Hx as <-. right. left. reflexivity.
  - rewrite step_down_handle_cases. cbn [fst panelDowns handleDowns].
    destruct (negb (resizable env) || negb (button e =? 0)%Z); cbn [drag resize];
      split; intros x' Hx; try (left; eauto; fail).
    injection Hx as <-. right. left. reflexivity.
  - rewrite step_move. cbn [fst drag resize]. split.
    + intros d' Hd. destruct d as [d|]; [|discriminate].
      rewrite handleMove_preview in Hd.
      destruct (computedPreview c env e); cbn [drag] in Hd;
        injection Hd as <-; left; eauto.
    + intros r' Hr. left. exists r'. split; [|reflexivity].
      destruct d as [d|]; [|exact Hr].
      rewrite handleMove_preview in Hr.
      destruct (computedPreview c env e); exact Hr.
  - rewrite step_up. cbn [fst drag resize]. split; intros x' Hx; discriminate.
Qed.

Lemma dispatched_cons (c : Component) (env : Env) (ev : Event)
  (rest : list (Env * Event)) (st : GestureState) :
  dispatched c ((env, ev) :: rest) st =
  snd (stepOf c env ev st) ++ dispatched c rest (fst (stepOf c env ev st)).
Proof.
  unfold dispatched. cbn [run].
  destruct (stepOf c env ev st) as [st1 acts]. cbn [fst snd].
  destruct (run c rest st1) as [st2 log]. reflexivity.
Qed.

Lemma panelDowns_cons (p : Env * Event) (rest : list (Env * Event)) (i : string) :
  In i (panelDowns [p]) \/ In i (panelDowns rest) -> In i (panelDowns (p :: rest)).
Proof.
  destruct p as [env [e item|e item|e|]]; cbn [panelDowns In]; tauto.
Qed.

Lemma handleDowns_cons (p : Env * Event) (rest : list (Env * Event)) (i : string) :
  In i (handleDowns [p]) \/ In i (handleDowns rest) -> In i (handleDowns (p :: rest)).
Proof.
  destruct p as [env [e item|e item|e|]]; cbn [handleDowns In]; tauto.
Qed.

Lemma dispatched_ids (c : Component) (evs : list (Env * Event)) :
  forall (st : GestureState) (a : LayoutAction),
    In a (dispatched c evs st) ->
    if isMove a
    then In (actionId a) (panelDowns evs) \/
         exists d, drag st = Some d /\ actionId a = drag_id d
    else In (actionId a) (handleDowns evs) \/
         exists r, resize st = Some r /\ actionId a = resize_id r.
Proof.
  induction evs as [|[env ev] evs IH]; intros st a Hin.
  - destruct Hin.
  - rewrite dispatched_cons in Hin. apply in_app_or in Hin.
    destruct Hin as [Hin|Hin].
    + destruct (step_actions c env ev st a Hin) as [_ S].
      destruct a as [i ax ay|i aw ah]; cbn [isMove actionId].
      * right. destruct S as [_ (d & Hd & -> & _)]. eauto.
      * right. destruct S as [_ (r & Hr & ->)]. eauto.
    + specialize (IH _ _ Hin).
      destruct (step_ids c env ev st) as [Sd Sr].
      destruct (isMove a).
      * destruct IH as [IH|(d' & Hd' & E)].
        -- left. apply panelDowns_cons. right. exact IH.
        -- destruct (Sd d' Hd') as [(d & Hd & E')|P].
           ++ right. exists d. split; [exact Hd|congruence].
           ++ left. apply panelDowns_cons. left. rewrite E. exact P.
      * destruct IH as [IH|(r' & Hr' & E)].
        -- left. apply handleDowns_cons. right. exact IH.
        -- destruct (Sr r' Hr') as [(r & Hr & E')|P].
           ++ right. exists r. split; [exact Hr|congruence].
           ++ left. apply handleDowns_cons. left. rewrite E. exact P.
Qed.

(** X10.  In any run from the idle state, a dispatched move carries the
    id of an item whose panel received a pointer-down in that run, and a
    dispatched resize the id of an item whose resize handle did. *)
Theorem dispatched_ids_come_from_pointer_downs :
  forall (c : Component) (evs : list (Env * Event)) (a : LayoutAction),
    In a (dispatched c evs Idle) ->
    if isMove a then In (actionId a) (panelDowns evs)
    else In (actionId a) (handleDowns evs).
Proof.
  intros c evs a Hin. assert (H := dispatched_ids c evs Idle a Hin).
  destruct (isMove a); destruct H as [H|(x' & Hx & _)];
    try exact H; discriminate.
Qed.

(** X11.  The pointer position of the pointer-down is stored and never
    used: two drag gestures that differ only in it run identically, and
    so do two resize gestures that differ only in it and in the size the
    item had at pointer-down. *)
Theorem grab_point_does_not_matter :
  forall (c : Component) (env0 : Env) (e0 e0' : MouseEvent) (item item' : GridItem)
         (moves : list (Env * MouseEvent)) (envUp : Env),
    button e0 = 0%Z -> button e0' = 0%Z ->
    (draggable env0 = true ->
     run c ((env0, PanelMouseDown e0 item) :: asMoves moves ++ [(envUp, MouseUp)]) Idle
     = run c ((env0, PanelMouseDown e0' item) :: asMoves moves ++ [(envUp, MouseUp)]) Idle) /\
    (resizable env0 = true -> id item = id item' ->
     run c ((env0, ResizeHandleMouseDown e0 item) :: asMoves moves ++ [(envUp, MouseUp)]) Idle
     = run c ((env0, ResizeHandleMouseDown e0' item') :: asMoves moves ++ [(envUp, MouseUp)]) Idle).
Proof.
  intros c env0 e0 e0' item item' moves envUp Hb Hb'. split.
  - intros Hd. cbn [run].
    rewrite (step_panel_down c env0 e0 item Idle Hd Hb),
            (step_panel_down c env0 e0' item Idle Hd Hb').
    cbn [resize Idle]. rewrite !run_app, !run_drag_moves.
    cbn [fst snd run]. rewrite !step_up. reflexivity.
  - intros Hr Hid. cbn [run].
    rewrite (step_handle_down c env0 e0 item Idle Hr Hb),
            (step_handle_down c env0 e0' item' Idle Hr Hb').
    cbn [drag Idle]. rewrite !run_app, !run_resize_moves.
    cbn [fst snd run resize_id]. rewrite !step_up. rewrite Hid. reflexivity.
Qed.

(* ================================================================== *)
(** ** The two components compared *)

Section Same.

Lemma same_refl (a : number) : same a a.
Proof. destruct a; cbn [same]; auto. reflexivity. Qed.

Lemma same_sym (a b : number) : same a b -> same b a.
Proof. destruct a, b; cbn [same]; auto. intros E. symmetry. exact E. Qed.

Lemma same_trans (a b c : number) : same a b -> same b c -> same a c.
Proof.
  destruct a, b, c; cbn [same]; try tauto. intros E1 E2. rewrite E1. exact E2.
Qed.

Lemma inf_times_same (s : bool) (p q : Q) :
  p == q -> JS.inf_times s p = JS.inf_times s q.
Proof. intros E. unfold JS.inf_times. rewrite E. reflexivity. Qed.

Variables (a a' b b' : number).
Hypothesis (Ha : same a a') (Hb : same b b').

Lemma same_sub : same (JS.sub a b) (JS.sub a' b').
Proof.
  destruct a, a', b, b'; cbn [same JS.sub] in *; try tauto.
  rewrite Ha, Hb. reflexivity.
Qed.

Lemma same_mul : same (JS.mul a b) (JS.mul a' b').
Proof.
  destruct a, a', b, b'; cbn [same JS.mul] in *; try tauto.
  - rewrite (inf_times_same _ _ _ Hb). apply same_refl.
  - rewrite (inf_times_same _ _ _ Hb). apply same_refl.
  - rewrite (inf_times_same _ _ _ Ha). apply same_refl.
  - rewrite (inf_times_same _ _ _ Ha). apply same_refl.
  - rewrite Ha, Hb. reflexivity.
Qed.

Lemma same_div : same (JS.div a b) (JS.div a' b').
Proof.
  destruct a as [| | |p], a' as [| | |p'], b as [| | |q], b' as [| | |q'];
    cbn [same JS.div] in *; try tauto.
  - rewrite (Qleb_comp 0 0 (Qeq_refl 0) q q' Hb). apply same_refl.
  - rewrite (Qleb_comp 0 0 (Qeq_refl 0) q q' Hb). apply same_refl.
  - reflexivity.
  - reflexivity.
  - rewrite (Qeqb_comp q q' Hb 0 0 (Qeq_refl 0)).
    destruct (Qeq_bool q' 0).
    + rewrite Ha. apply same_refl.
    + cbn [same]. rewrite Ha, Hb. reflexivity.
Qed.

Lemma same_max : same (Math.max a b) (Math.max a' b').
Proof.
  destruct a as [| | |p], a' as [| | |p'], b as [| | |q], b' as [| | |q'];
    cbn [same Math.max] in *; try tauto.
  rewrite (Qleb_comp p p' Ha q q' Hb).
  destruct (Qle_bool p' q'); assumption.
Qed.

Lemma same_min : same (Math.min a b) (Math.min a' b').
Proof.
  destruct a as [| | |p], a' as [| | |p'], b as [| | |q], b' as [| | |q'];
    cbn [same Math.min] in *; try tauto.
  rewrite (Qleb_comp p p' Ha q q' Hb).
  destruct (Qle_bool p' q'); assumption.
Qed.

Lemma round_same : Math.round a = Math.round a'.
Proof.
  destruct a as [| | |p], a' as [| | |p']; cbn [same Math.round] in *;
    try tauto.
  rewrite Ha. reflexivity.
Qed.

End Same.

Section Agreement.

Variable env : Env.
Hypothesis Hprop : columnsProp env = None.
Hypothesis Hmeasured :
  forall rect, containerRef env = Some rect ->
               same (Fluid.getCellWidthFromRect env rect) (cellWidth env).

Lemma columns_agree : Fluid.columnsOf env = Fixed.columnsOf env.
Proof. unfold Fluid.columnsOf. rewrite Hprop. reflexivity. Qed.

Lemma handleMove_agree (st : GestureState) (e : MouseEvent) :
  Fluid.handleMove env st e = Fixed.handleMove env st e.
Proof.
  unfold Fluid.handleMove, Fixed.handleMove, Fixed.pixelToGridX.
  destruct (drag st); [|reflexivity].
  destruct (containerRef env) as [rect|] eqn:Hc; [|reflexivity].
  cbv zeta. rewrite columns_agree.
  rewrite (round_same _ _
             (same_div _ _ _ _ (same_refl (JS.sub (clientX e) (left rect)))
                (Hmeasured rect eq_refl))).
  reflexivity.
Qed.

Lemma handleResize_agree (st : GestureState) (e : MouseEvent) :
  Fluid.handleResize env st e = Fixed.handleResize env st e.
Proof.
  unfold Fluid.handleResize, Fixed.handleResize, Fixed.pixelToGridW.
  destruct (resize st) as [r|]; [|reflexivity].
  destruct (containerRef env) as [rect|] eqn:Hc; [|reflexivity].
  cbv zeta.
  destruct (findItem (resize_id r) (items (snapshot env))) as [item|];
    [|reflexivity].
  rewrite columns_agree.
  assert (S := Hmeasured rect eq_refl).
  rewrite (round_same _ _
             (same_div _ _ _ _
                (same_max _ _ _ _ S
                   (same_sub _ _ _ _
                      (same_refl (JS.sub (clientX e) (left rect)))
                      (same_mul _ _ _ _ (same_refl (x item)) S)))
                S)).
  reflexivity.
Qed.

End Agreement.

(** X13.  Without a [columns] override, and with a container whose
    measured cell width ([getCellWidthFromRect], the container width
    divided by [columns]) is the [cellWidth] prop, the fluid component
    handles every event in every state exactly as the fixed component
    does: the two differ only in the cell width and the column count
    their handlers use. *)
Theorem fluid_component_agrees_with_fixed_at_grid_width :
  forall (env : Env) (ev : Event) (st : GestureState),
    columnsProp env = None ->
    (forall rect, containerRef env = Some rect ->
                  same (Fluid.getCellWidthFromRect env rect) (cellWidth env)) ->
    Fluid.step env ev st = Fixed.step env ev st.
Proof.
  intros env ev st Hp Hw.
  destruct ev as [e item|e item|e|]; try reflexivity.
  unfold Fluid.step, Fixed.step.
  rewrite (handleMove_agree env Hp Hw), (handleResize_agree env Hp Hw).
  reflexivity.
Qed.

(* ================================================================== *)
(** ** What is rendered *)

Lemma fold_max_bound (l : list number) :
  forall (acc : number) (qa : Q),
    isval acc qa -> Forall finite l ->
    exists q, isval (fold_left Math.max l acc) q /\ qa <= q /\
              forall n p, In n l -> isval n p -> p <= q.
Proof.
  induction l as [|n l IH]; intros acc qa Ha Hl.
  - exists qa. cbn. repeat split; [exact Ha | apply Qle_refl | tauto].
  - inversion Hl as [|? ? Hn Hl']; subst.
    destruct (finite_isval _ Hn) as [qn Vn].
    destruct (IH _ _ (isval_max _ _ _ _ Ha Vn) Hl') as (q & Vq & Lq & Bq).
    exists q. cbn [fold_left]. split; [exact Vq|]. split.
    + eapply Qle_trans; [apply Q.le_max_l|exact Lq].
    + intros m p [<-|Hin] Vm.
      * assert (E : p == qn).
        { destruct n; cbn [isval] in *; try tauto. rewrite <- Vm. exact Vn. }
        rewrite E. eapply Qle_trans; [apply Q.le_max_r|exact Lq].
      * apply (Bq m p Hin Vm).
Qed.

Lemma maxOf_bound (l : list number) (n : number) (p : Q) :
  Forall finite l -> In n l -> isval n p ->
  exists q, isval (Math.maxOf l) q /\ p <= q.
Proof.
  intros Hl Hin Vn. destruct l as [|a l]; [destruct Hin|].
  inversion Hl as [|? ? Ha Hl']; subst.
  destruct (finite_isval _ Ha) as [qa Va].
  unfold Math.maxOf. cbn [fold_left].
  assert (E : Math.max NegInf a = a) by (destruct a; reflexivity).
  rewrite E.
  destruct (fold_max_bound l a qa Va Hl') as (q & Vq & Lq & Bq).
  exists q. split; [exact Vq|].
  destruct Hin as [<-|Hin].
  - assert (E' : p == qa).
    { destruct a; cbn [isval] in *; try tauto. rewrite <- Vn. exact Va. }
    rewrite E'. exact Lq.
  - apply (Bq n p Hin Vn).
Qed.

Lemma totalH_covers (env : Env) (item : GridItem) (ch iy ih : Q) :
  isval (cellHeight env) ch -> 0 <= ch ->
  Forall (fun i => finite (y i) /\ finite (h i)) (items (snapshot env)) ->
  In item (items (snapshot env)) ->
  isval (y item) iy -> isval (h item) ih ->
  exists t, isval (totalH env) t /\ (iy + ih) * ch <= t.
Proof.
  intros Hch Hpos Hall Hin Vy Vh. unfold totalH.
  destruct (items (snapshot env)) as [|a l] eqn:El; [destruct Hin|].
  rewrite <- El in *.
  assert (Hl : Forall finite (map (fun i => JS.add (y i) (h i))
                                  (items (snapshot env)))).
  { apply Forall_map. eapply Forall_impl; [|exact Hall].
    intros i [Fy Fh]. destruct (finite_isval _ Fy) as [qy Vqy].
    destruct (finite_isval _ Fh) as [qh Vqh].
    apply (isval_finite _ _ (isval_add _ _ _ _ Vqy Vqh)). }
  destruct (maxOf_bound _ _ _ Hl
              (in_map (fun i => JS.add (y i) (h i)) _ _ Hin)
              (isval_add _ _ _ _ Vy Vh)) as (q & Vq & Lq).
  exists (q * ch). split; [apply isval_mul; assumption|].
  apply Qmult_le_compat_r; assumption.
Qed.

Lemma renderItem_boxes (c : Component) (env : Env) (st : GestureState)
  (item : GridItem) (b : Box) :
  In b (renderItemOf c env st item) ->
  key b = id item /\
  cssTop b = Px (JS.mul (if committedBox st item b then y item
                         else displayY st item) (cellHeight env)) /\
  cssHeight b = Px (JS.mul (h item) (cellHeight env)) /\
  (kind b = Placeholder -> isDragging st item = true).
Proof.
  unfold committedBox, displayY, isDragging.
  destruct c; cbn [renderItemOf]; unfold Fluid.renderItem, Fixed.renderItem;
    unfold isDragging, displayY, displayX;
    destruct (drag st) as [d|]; cbn [app In];
    try destruct (String.eqb (id item) (drag_id d)); cbn [app In negb];
    intros H; repeat (destruct H as [<-|H]); try destruct H;
    cbn [key cssTop cssHeight kind negb]; repeat split; try reflexivity;
    try discriminate.
Qed.

(** X14.  With a finite cell height [>= 0] and finite [y], [h] of all
    items, the container height [totalH] is at least
    [(item.y + item.h) * cellHeight] for every item of the snapshot;
    and, in both components, every rendered box that shows such an item
    at its committed position (placeholders, and the panels of the items
    not being dragged) has its top at most [totalH] if [item.h >= 0],
    and every box of the item has a height at most [totalH] if
    [item.y >= 0]. *)
Theorem container_height_covers_committed_boxes :
  forall (c : Component) (env : Env) (st : GestureState) (item : GridItem)
         (ch iy ih : Q),
    isval (cellHeight env) ch -> 0 <= ch ->
    Forall (fun i => finite (y i) /\ finite (h i)) (items (snapshot env)) ->
    In item (items (snapshot env)) ->
    isval (y item) iy -> isval (h item) ih ->
    JS.le (JS.mul (JS.add (y item) (h item)) (cellHeight env)) (totalH env)
    = true /\
    (0 <= ih ->
     forall b, In b (renderItemOf c env st item) ->
               committedBox st item b = true ->
               JS.le (lengthValue (cssTop b)) (totalH env) = true) /\
    (0 <= iy ->
     forall b, In b (renderItemOf c env st item) ->
               JS.le (lengthValue (cssHeight b)) (totalH env) = true).
Proof.
  intros c env st item ch iy ih Hch Hpos Hall Hin Vy Vh.
  destruct (totalH_covers env item ch iy ih Hch Hpos Hall Hin Vy Vh)
    as (t & Vt & Lt).
  split; [|split].
  - apply (le_true _ _ _ _
             (isval_mul _ _ _ _ (isval_add _ _ _ _ Vy Vh) Hch) Vt).
    exact Lt.
  - intros Hh b Hb Hcommitted.
    destruct (renderItem_boxes c env st item b Hb) as (_ & Et & _ & _).
    rewrite Hcommitted in Et. rewrite Et. cbn [lengthValue].
    apply (le_true _ _ _ _ (isval_mul _ _ _ _ Vy Hch) Vt).
    assert (M : 0 <= ih * ch) by (apply Qmult_le_0_compat; assumption).
    lra.
  - intros Hy b Hb.
    destruct (renderItem_boxes c env st item b Hb) as (_ & _ & Eh & _).
    rewrite Eh. cbn [lengthValue].
    apply (le_true _ _ _ _ (isval_mul _ _ _ _ Vh Hch) Vt).
    assert (M : 0 <= iy * ch) by (apply Qmult_le_0_compat; assumption).
    lra.
Qed.

Lemma fixed_box_geometry (env : Env) (st : GestureState) (item : GridItem)
  (b : Box) :
  In b (Fixed.renderItem env st item) ->
  cssLeft b = Px (JS.mul (if committedBox st item b then x item
                          else displayX st item) (cellWidth env)) /\
  cssWidth b = Px (JS.mul (w item) (cellWidth env)).
Proof.
  unfold committedBox, Fixed.renderItem, isDragging, displayX.
  destruct (drag st) as [d|]; cbn [app In];
    try destruct (String.eqb (id item) (drag_id d)); cbn [app In negb];
    intros H; repeat (destruct H as [<-|H]); try destruct H;
    cbn [cssLeft cssWidth kind negb]; split; reflexivity.
Qed.

Lemma fluid_box_geometry (env : Env) (st : GestureState) (item : GridItem)
  (b : Box) :
  In b (Fluid.renderItem env st item) ->
  cssLeft b = Pct (Fluid.colPct env (if committedBox st item b then x item
                                     else displayX st item)) /\
  cssWidth b = Pct (Fluid.colPct env (w item)).
Proof.
  unfold committedBox, Fluid.renderItem, isDragging, displayX.
  destruct (drag st) as [d|]; cbn [app In];
    try destruct (String.eqb (id item) (drag_id d)); cbn [app In negb];
    intros H; repeat (destruct H as [<-|H]); try destruct H;
    cbn [cssLeft cssWidth kind negb]; split; reflexivity.
Qed.

(** X15.  In the fixed component, with a finite cell width [>= 0] and
    an item with [0 <= x], [0 <= w] and [x + w <= columns]: the
    container width [totalW] is at least [(x + w) * cellWidth], and
    every box showing the item at its committed position has its left
    and its width between 0 and [totalW]. *)
Theorem fixed_container_width_covers_committed_boxes :
  forall (env : Env) (st : GestureState) (item : GridItem) (b : Box)
         (cw cols ix iw : Q),
    isval (cellWidth env) cw -> 0 <= cw ->
    isval (columns (snapshot env)) cols ->
    isval (x item) ix -> isval (w item) iw ->
    0 <= ix -> 0 <= iw -> ix + iw <= cols ->
    In b (Fixed.renderItem env st item) ->
    committedBox st item b = true ->
    JS.le (JS.mul (JS.add (x item) (w item)) (cellWidth env)) (Fixed.totalW env)
    = true /\
    JS.le (int 0) (lengthValue (cssLeft b)) = true /\
    JS.le (lengthValue (cssLeft b)) (Fixed.totalW env) = true /\
    JS.le (int 0) (lengthValue (cssWidth b)) = true /\
    JS.le (lengthValue (cssWidth b)) (Fixed.totalW env) = true.
Proof.
  intros env st item b cw cols ix iw Hcw Hpos Hcols Vx Vw Hx Hw Hfit Hb Hcommitted.
  destruct (fixed_box_geometry env st item b Hb) as [El Ew].
  rewrite Hcommitted in El.
  assert (Vt : isval (Fixed.totalW env) (cols * cw))
    by (apply (isval_mul _ _ _ _ Hcols Hcw)).
  assert (Mx : 0 <= ix * cw) by (apply Qmult_le_0_compat; assumption).
  assert (Mw : 0 <= iw * cw) by (apply Qmult_le_0_compat; assumption).
  assert (M : (ix + iw) * cw <= cols * cw)
    by (apply Qmult_le_compat_r; assumption).
  rewrite El, Ew. cbn [lengthValue]. repeat split.
  - apply (le_true _ _ _ _
             (isval_mul _ _ _ _ (isval_add _ _ _ _ Vx Vw) Hcw) Vt).
    exact M.
  - apply (le_true _ _ _ _ (isval_int 0) (isval_mul _ _ _ _ Vx Hcw)).
    exact Mx.
  - apply (le_true _ _ _ _ (isval_mul _ _ _ _ Vx Hcw) Vt). lra.
  - apply (le_true _ _ _ _ (isval_int 0) (isval_mul _ _ _ _ Vw Hcw)).
    exact Mw.
  - apply (le_true _ _ _ _ (isval_mul _ _ _ _ Vw Hcw) Vt). lra.
Qed.

Lemma colPct_val (env : Env) (g : number) (cols q : Q) :
  isval (Fluid.columnsOf env) cols -> 0 < cols -> isval g q ->
  isval (Fluid.colPct env g) (q / cols * 100).
Proof.
  intros Hc Hpos Vg. unfold Fluid.colPct.
  rewrite (gt_true _ _ _ _ Hc (isval_int 0)) by exact Hpos.
  apply (isval_mul _ _ _ _ (isval_div _ _ _ _ Vg Hc ltac:(lra)) (isval_int 100)).
Qed.

(** X16.  In the fluid component, with [columns > 0] and an item with
    [0 <= x], [0 <= w] and [x + w <= columns]: [colPct(x + w)] is at
    most 100, and every box showing the item at its committed position
    has a left percentage and a width percentage between 0 and 100. *)
Theorem fluid_committed_boxes_stay_within_full_width :
  forall (env : Env) (st : GestureState) (item : GridItem) (b : Box)
         (cols ix iw : Q),
    isval (Fluid.columnsOf env) cols -> 0 < cols ->
    isval (x item) ix -> isval (w item) iw ->
    0 <= ix -> 0 <= iw -> ix + iw <= cols ->
    In b (Fluid.renderItem env st item) ->
    committedBox st item b = true ->
    JS.le (Fluid.colPct env (JS.add (x item) (w item))) (int 100) = true /\
    JS.le (int 0) (lengthValue (cssLeft b)) = true /\
    JS.le (lengthValue (cssLeft b)) (int 100) = true /\
    JS.le (int 0) (lengthValue (cssWidth b)) = true /\
    JS.le (lengthValue (cssWidth b)) (int 100) = true.
Proof.
  intros env st item b cols ix iw Hcols Hpos Vx Vw Hx Hw Hfit Hb Hcommitted.
  destruct (fluid_box_geometry env st item b Hb) as [El Ew].
  rewrite Hcommitted in El.
  assert (Vl := colPct_val env (x item) cols ix Hcols Hpos Vx).
  assert (Pw := colPct_val env (w item) cols iw Hcols Hpos Vw).
  assert (Ps := colPct_val env _ cols _ Hcols Hpos (isval_add _ _ _ _ Vx Vw)).
  assert (Dx : 0 <= ix / cols) by (apply Qle_shift_div_l; lra).
  assert (Dw : 0 <= iw / cols) by (apply Qle_shift_div_l; lra).
  assert (Ux : ix / cols <= 1) by (apply Qle_shift_div_r; lra).
  assert (Uw : iw / cols <= 1) by (apply Qle_shift_div_r; lra).
  assert (Us : (ix + iw) / cols <= 1) by (apply Qle_shift_div_r; lra).
  rewrite El, Ew. cbn [lengthValue]. repeat split.
  - apply (le_true _ _ _ _ Ps (isval_int 100)).
    change (inject_Z 100) with 100. lra.
  - apply (le_true _ _ _ _ (isval_int 0) Vl). change (inject_Z 0) with 0. lra.
  - apply (le_true _ _ _ _ Vl (isval_int 100)).
    change (inject_Z 100) with 100. lra.
  - apply (le_true _ _ _ _ (isval_int 0) Pw). change (inject_Z 0) with 0. lra.
  - apply (le_true _ _ _ _ Pw (isval_int 100)).
    change (inject_Z 100) with 100. lra.
Qed.

Lemma keysOf_app (k : BoxKind) (l1 l2 : list Box) :
  keysOf k (l1 ++ l2) = keysOf k l1 ++ keysOf k l2.
Proof. unfold keysOf. rewrite filter_app, map_app. reflexivity. Qed.

Lemma renderItem_keys (c : Component) (env : Env) (st : GestureState)
  (item : GridItem) :
  keysOf Panel (renderItemOf c env st item) = [id item] /\
  keysOf Placeholder (renderItemOf c env st item) =
  (if isDragging st item then [id item] else []).
Proof.
  destruct c; cbn [renderItemOf]; unfold Fluid.renderItem, Fixed.renderItem;
    destruct (isDragging st item); split; reflexivity.
Qed.

Lemma renderItems_flat (c : Component) (env : Env) (st : GestureState) :
  renderItemsOf c env st =
  flat_map (renderItemOf c env st) (items (snapshot env)).
Proof. destruct c; reflexivity. Qed.

(** X18.  In every state both components render exactly one panel per
    item, in the snapshot's order, and placeholders exactly for the items
    whose id is the one being dragged (none when idle). *)
Theorem one_panel_per_item_and_placeholders_for_the_dragged :
  forall (c : Component) (env : Env) (st : GestureState),
    keysOf Panel (renderItemsOf c env st) = map id (items (snapshot env)) /\
    keysOf Placeholder (renderItemsOf c env st) =
    map id (filter (isDragging st) (items (snapshot env))).
Proof.
  intros c env st. rewrite renderItems_flat.
  induction (items (snapshot env)) as [|item l [IHp IHh]].
  - split; reflexivity.
  - cbn [flat_map map filter]. rewrite !keysOf_app, IHp, IHh.
    destruct (renderItem_keys c env st item) as [Ep Eh]. rewrite Ep, Eh.
    destruct (isDragging st item); split; reflexivity.
Qed.

(** X19.  An item that is not the dragged one is rendered exactly as in
    the idle state, whatever drag or resize is going on. *)
Theorem other_items_render_as_when_idle :
  forall (c : Component) (env : Env) (st : GestureState) (item : GridItem),
    isDragging st item = false ->
    renderItemOf c env st item = renderItemOf c env Idle item.
Proof.
  intros c env [d r] item H.
  unfold isDragging in H. cbn [drag] in H.
  destruct c; cbn [renderItemOf]; unfold Fluid.renderItem, Fixed.renderItem;
    unfold panelCursor, panelOpacity, panelZIndex, displayX, displayY, isDragging;
    cbn [drag Idle]; destruct d as [d|]; try reflexivity; rewrite H; reflexivity.
Qed.

(* ================================================================== *)
(** ** The hook over time *)


Lemma setStore_other (stores : Stores) (s t : StoreRef) (v : LayoutState) :
  t <> s -> setStore stores s v t = stores t.
Proof.
  intros N. unfold setStore. apply Nat.eqb_neq in N. rewrite N. reflexivity.
Qed.

(** Both revisions: after the effects of a render the hook is subscribed
    to the store of that render. *)
Lemma sync_subscribes (r : Revision) (stores : Stores) (s : StoreRef) (hk : Hook) :
  effectStore (fst (syncOf r stores s hk)) = Some s.
Proof.
  destruct r; cbn [syncOf];
    unfold UseLayoutState.sync, UseLayoutState.commitEffects,
           UseLayoutStateLegacy.sync, UseLayoutStateLegacy.commitEffects,
           depsChanged; cbn [fst];
    destruct (effectStore hk) as [prev|] eqn:E; cbn [negb effectStore];
    try reflexivity;
    destruct (Nat.eqb prev s) eqn:B; cbn [negb effectStore]; try reflexivity;
    apply Nat.eqb_eq in B; subst; exact E.
Qed.


Lemma mounted_subscribed (r : Revision) (stores : Stores) (s : StoreRef) :
  effectStore (mounted r stores s) = Some s.
Proof. apply sync_subscribes. Qed.

Lemma mounted_state (r : Revision) (stores : Stores) (s : StoreRef) :
  state (mounted r stores s) = stores s.
Proof. destruct r; reflexivity. Qed.

Lemma current_fresh (evs : list HookEvent) :
  forall (stores : Stores) (hk : Hook) (cur : StoreRef),
    effectStore hk = Some cur -> state hk = stores cur ->
    render (snd (hookRun CurrentHook (stores, hk) evs))
    = fst (hookRun CurrentHook (stores, hk) evs) (lastStore cur evs).
Proof.
  induction evs as [|ev evs IH]; intros stores hk cur He Hs.
  - exact Hs.
  - unfold hookRun in *. cbn [fold_left lastStore]. destruct ev as [s v|s].
    + cbn [hookStep fst snd]. unfold notify. rewrite He.
      destruct (Nat.eqb cur s) eqn:B.
      * apply IH; [reflexivity|]. cbn [state].
        reflexivity.
      * apply IH; [exact He|].
        apply Nat.eqb_neq in B. rewrite (setStore_other _ _ _ _ B). exact Hs.
    + cbn [hookStep fst snd syncOf].
      unfold UseLayoutState.sync, UseLayoutState.commitEffects, depsChanged.
      rewrite He. cbn [fst].
      destruct (Nat.eqb cur s) eqn:B; cbn [negb].
      * apply Nat.eqb_eq in B. subst s. apply IH; assumption.
      * apply IH; reflexivity.
Qed.

(** X20.  The hook of [useLayoutState.ts], mounted on a store and taken
    through any sequence of store commits (of any store) and renders
    with any store prop, returns the current state of the store of the
    last render. *)
Theorem current_hook_always_returns_the_store_state :
  forall (stores : Stores) (s0 : StoreRef) (evs : list HookEvent),
    render (snd (hookRun CurrentHook (stores, mounted CurrentHook stores s0) evs))
    = fst (hookRun CurrentHook (stores, mounted CurrentHook stores s0) evs)
          (lastStore s0 evs).
Proof.
  intros stores s0 evs. apply current_fresh.
  - apply mounted_subscribed.
  - apply mounted_state.
Qed.

Lemma lastStore_kept (s0 : StoreRef) (evs : list HookEvent) :
  forallb (keepsStore s0) evs = true -> lastStore s0 evs = s0.
Proof.
  induction evs as [|ev evs IH]; intros H; [reflexivity|].
  cbn [forallb] in H. apply andb_true_iff in H. destruct H as [H1 H2].
  destruct ev as [s v|s]; cbn [lastStore].
  - apply IH, H2.
  - cbn [keepsStore] in H1. apply Nat.eqb_eq in H1. subst s. apply IH, H2.
Qed.

Lemma legacy_fresh (s0 : StoreRef) (evs : list HookEvent) :
  forallb (keepsStore s0) evs = true ->
  forall (stores : Stores) (hk : Hook),
    effectStore hk = Some s0 -> state hk = stores s0 ->
    render (snd (hookRun LegacyHook (stores, hk) evs))
    = fst (hookRun LegacyHook (stores, hk) evs) s0.
Proof.
  induction evs as [|ev evs IH]; intros H stores hk He Hs.
  - exact Hs.
  - cbn [forallb] in H. apply andb_true_iff in H. destruct H as [H1 H2].
    unfold hookRun in *. cbn [fold_left]. destruct ev as [s v|s].
    + cbn [hookStep fst snd]. unfold notify. rewrite He.
      destruct (Nat.eqb s0 s) eqn:B.
      * apply (IH H2); reflexivity.
      * apply (IH H2); [exact He|].
        apply Nat.eqb_neq in B. rewrite (setStore_other _ _ _ _ B). exact Hs.
    + cbn [keepsStore] in H1. apply Nat.eqb_eq in H1. subst s.
      cbn [hookStep fst snd syncOf].
      unfold UseLayoutStateLegacy.sync, UseLayoutStateLegacy.commitEffects,
             depsChanged.
      rewrite He, Nat.eqb_refl. cbn [negb fst]. apply (IH H2); assumption.
Qed.

Lemma early_commits (r : Revision) (early : list HookEvent) :
  forall (stores : Stores) (hk : Hook),
    effectStore hk = None -> forallb isCommit early = true ->
    snd (hookRun r (stores, hk) early) = hk.
Proof.
  induction early as [|ev early IH]; intros stores hk He H; [reflexivity|].
  cbn [forallb] in H. apply andb_true_iff in H. destruct H as [H1 H2].
  destruct ev as [s v|s]; [|discriminate H1].
  unfold hookRun in *. cbn [fold_left hookStep fst snd].
  unfold notify. rewrite He. apply IH; assumption.
Qed.

Lemma untouched_store (r : Revision) (s0 : StoreRef) (evs : list HookEvent) :
  forall (stores : Stores) (hk : Hook),
    forallb (leavesStore s0) evs = true ->
    fst (hookRun r (stores, hk) evs) s0 = stores s0.
Proof.
  induction evs as [|ev evs IH]; intros stores hk H; [reflexivity|].
  cbn [forallb] in H. apply andb_true_iff in H. destruct H as [H1 H2].
  unfold hookRun in *. cbn [fold_left]. destruct ev as [s v|s].
  - cbn [hookStep fst snd]. rewrite (IH _ _ H2).
    cbn [leavesStore] in H1. apply negb_true_iff, Nat.eqb_neq in H1.
    apply setStore_other. intros E. apply H1. symmetry. exact E.
  - cbn [hookStep fst snd]. apply (IH _ _ H2).
Qed.

Lemma legacy_keeps_state (s0 : StoreRef) (evs : list HookEvent) :
  forall (stores : Stores) (hk : Hook),
    effectStore hk = Some s0 ->
    forallb (keepsStore s0) evs = true ->
    forallb (leavesStore s0) evs = true ->
    state (snd (hookRun LegacyHook (stores, hk) evs)) = state hk.
Proof.
  induction evs as [|ev evs IH]; intros stores hk He Hk Hl; [reflexivity|].
  cbn [forallb] in Hk, Hl.
  apply andb_true_iff in Hk. destruct Hk as [K1 K2].
  apply andb_true_iff in Hl. destruct Hl as [L1 L2].
  unfold hookRun in *. cbn [fold_left]. destruct ev as [s v|s].
  - cbn [hookStep fst snd]. unfold notify. rewrite He.
    cbn [leavesStore] in L1. apply negb_true_iff in L1.
    rewrite Nat.eqb_sym, L1. apply IH; assumption.
  - cbn [keepsStore] in K1. apply Nat.eqb_eq in K1. subst s.
    cbn [hookStep fst snd syncOf].
    unfold UseLayoutStateLegacy.sync, UseLayoutStateLegacy.commitEffects,
           depsChanged.
    rewrite He, Nat.eqb_refl. cbn [negb fst]. apply IH; assumption.
Qed.

Lemma hookRun_app (r : Revision) (w : Stores * Hook) (l1 l2 : list HookEvent) :
  hookRun r w (l1 ++ l2) = hookRun r (hookRun r w l1) l2.
Proof. unfold hookRun. apply fold_left_app. Qed.

(** X21.  The other revision of the hook, from its first render with a
    store on.  Let [early] be the store commits that arrive between the
    first render and the first run of its effects, and [evs] the commits
    and renders after it, every render passing that same store.  If no
    early commit is of that store, the hook returns, at the end, the
    current state of the store.  If no later commit is of that store,
    the hook returns, at the end, the state its first render read,
    whatever the early commits have written since. *)
Theorem legacy_hook_misses_only_commits_before_its_first_effect :
  forall (stores : Stores) (s0 : StoreRef) (early evs : list HookEvent),
    forallb isCommit early = true ->
    forallb (keepsStore s0) evs = true ->
    let world := hookRun LegacyHook (stores, mountHook stores s0)
                         (early ++ Rerender s0 :: evs) in
    (forallb (leavesStore s0) early = true ->
     render (snd world) = fst world s0) /\
    (forallb (leavesStore s0) evs = true ->
     render (snd world) = stores s0).
Proof.
  intros stores s0 early evs Hc Hk world.
  assert (E1 := early_commits LegacyHook early stores (mountHook stores s0)
                  eq_refl Hc).
  unfold world. rewrite hookRun_app.
  destruct (hookRun LegacyHook (stores, mountHook stores s0) early)
    as [st1 hk1] eqn:Er.
  cbn [snd] in E1. subst hk1.
  change (hookRun LegacyHook (st1, mountHook stores s0) (Rerender s0 :: evs))
    with (hookRun LegacyHook (st1, mkHook (stores s0) (Some s0)) evs).
  split.
  - intros Hl.
    apply (legacy_fresh s0 evs Hk); [reflexivity|].
    cbn [state].
    assert (U := untouched_store LegacyHook s0 early stores
                   (mountHook stores s0) Hl).
    rewrite Er in U. symmetry. exact U.
  - intros Hl.
    apply (legacy_keeps_state s0 evs st1 (mkHook (stores s0) (Some s0))
             eq_refl Hk Hl).
Qed.


(* ================================================================== *)
(** ** Extremes of a resize, and drag ticks without a container *)

Lemma footprint_small (cell d : Q) :
  0 < cell -> d < (3 # 2) * cell -> Qmax 1 (roundQ (Qmax cell d / cell)) == 1.
Proof.
  intros Hc Hd. apply Q.max_l.
  assert (M : Qmax cell d / cell < 3 # 2).
  { apply Qlt_shift_div_r; [exact Hc|].
    apply Q.max_lub_lt; lra. }
  assert (R := roundQ_half_down 2 (Qmax cell d / cell)).
  change (inject_Z 2) with 2 in R. lra.
Qed.

Lemma footprint_large (cell d : Q) (k : Z) :
  0 < cell -> (inject_Z k - (1 # 2)) * cell <= d ->
  inject_Z k <= Qmax 1 (roundQ (Qmax cell d / cell)).
Proof.
  intros Hc Hd. eapply Qle_trans; [|apply Q.le_max_r].
  apply roundQ_half_up. apply Qle_shift_div_l; [exact Hc|].
  eapply Qle_trans; [exact Hd|apply Q.le_max_r].
Qed.

(** X6.  A resize tick with positive finite cell sizes on an item at
    integer [(x, y)] with [x + 1 <= columns]: while the pointer is at
    most one cell and 7/16 right of the item's left edge (anywhere left
    of it included) the dispatched width is 1, and likewise the height
    with the top edge; from 7/16 of a cell before the grid's right edge
    on, the dispatched width is [columns - x]. *)
Theorem resize_saturates_at_one_cell_and_at_the_last_column :
  forall (c : Component) (env : Env) (st : GestureState) (e : MouseEvent)
         (r : ResizeState) (rect : DOMRect) (item : GridItem)
         (cw ch px py l t : Q) (cols gx gy : Z),
    resize st = Some r ->
    containerRef env = Some rect ->
    findItem (resize_id r) (items (snapshot env)) = Some item ->
    isval (cellWidthEff c env rect) cw -> 0 < cw ->
    isval (cellHeight env) ch -> 0 < ch ->
    isval (columnsOf c env) (inject_Z cols) ->
    isval (x item) (inject_Z gx) -> isval (y item) (inject_Z gy) ->
    isval (clientX e) px -> isval (clientY e) py ->
    isval (left rect) l -> isval (top rect) t ->
    (gx + 1 <= cols)%Z ->
    exists rw rh : number,
      handleResizeOf c env st e = [Resize (resize_id r) rw rh] /\
      (px - l - inject_Z gx * cw <= (23 # 16) * cw -> JS.eqb rw (int 1) = true) /\
      (py - t - inject_Z gy * ch <= (23 # 16) * ch -> JS.eqb rh (int 1) = true) /\
      ((inject_Z (cols - gx) - (7 # 16)) * cw <= px - l - inject_Z gx * cw ->
       JS.eqb rw (JS.sub (columnsOf c env) (x item)) = true).
Proof.
  intros c env [d r0] e r rect item cw ch px py l t cols gx gy
         Hr Hrect Hfind Hcw Hcwpos Hch Hchpos Hcols Vx Vy Vpx Vpy Vl Vt Hroom.
  cbn [resize] in Hr. subst r0.
  assert (Hcwne : ~ cw == 0) by lra. assert (Hchne : ~ ch == 0) by lra.
  assert (Vw := computedWidth_val c env rect item e cw _ _ px l
                  Hcw Hcwne Hcols Vx Vpx Vl).
  assert (Vh := computedHeight_val c env rect item e ch _ py t
                  Hch Hchne Vy Vpy Vt).
  assert (Room : 1 <= inject_Z cols - inject_Z gx).
  { assert (A : inject_Z (gx + 1) <= inject_Z cols) by (rewrite <- Zle_Qle; exact Hroom).
    rewrite inject_Z_plus in A. change (inject_Z 1) with 1 in A. lra. }
  assert (Ediff : inject_Z (cols - gx) == inject_Z cols - inject_Z gx).
  { unfold Z.sub. rewrite inject_Z_plus, inject_Z_opp. reflexivity. }
  exists (fst (computedSize c env rect item e)),
         (snd (computedSize c env rect item e)).
  split; [|split; [|split]].
  - rewrite handleResize_tick. apply resizeTick_ready; assumption.
  - intros Hd16. apply (eqb_true _ _ _ _ Vw (isval_int 1)).
    assert (Hd : px - l - inject_Z gx * cw < (3 # 2) * cw) by lra.
    rewrite (footprint_small cw _ Hcwpos Hd).
    apply Q.min_r. exact Room.
  - intros Hd16. apply (eqb_true _ _ _ _ Vh (isval_int 1)).
    assert (Hd : py - t - inject_Z gy * ch < (3 # 2) * ch) by lra.
    apply (footprint_small ch _ Hchpos Hd).
  - intros Hd16.
    apply (eqb_true _ _ _ _ Vw (isval_sub _ _ _ _ Hcols Vx)).
    apply Q.min_l. rewrite <- Ediff.
    apply footprint_large; [assumption|].
    eapply Qle_trans; [|exact Hd16].
    apply Qmult_le_compat_r; lra.
Qed.

Lemma lastPreview_unmounted (c : Component) (start : number * number)
  (moves : list (Env * MouseEvent)) :
  forallb (fun m => match containerRef (fst m) with
                    | None => true
                    | Some _ => false
                    end) moves = true ->
  lastPreview c start moves = start.
Proof.
  induction moves as [|[env e] moves IH]; intros H; [reflexivity|].
  cbn [forallb fst] in H. apply andb_true_iff in H. destruct H as [H1 H2].
  cbn [lastPreview]. unfold computedPreview.
  destruct (containerRef env); [discriminate|]. apply IH, H2.
Qed.

(** X12.  A drag whose pointer-moves all find the container unmounted
    dispatches, at pointer-up, the move to the position captured at
    pointer-down, and nothing else. *)
Theorem drag_ticks_without_container_keep_the_captured_position :
  forall (c : Component) (env0 : Env) (e0 : MouseEvent) (item : GridItem)
         (moves : list (Env * MouseEvent)) (envUp : Env),
    draggable env0 = true -> button e0 = 0%Z ->
    forallb (fun m => match containerRef (fst m) with
                      | None => true
                      | Some _ => false
                      end) moves = true ->
    dispatched c ((env0, PanelMouseDown e0 item)
                    :: asMoves moves ++ [(envUp, MouseUp)]) Idle
    = [Move (id item) (x item) (y item)].
Proof.
  intros c env0 e0 item moves envUp Hd Hb Hm.
  unfold dispatched. cbn [run].
  rewrite (step_panel_down c env0 e0 item Idle Hd Hb).
  cbn [resize Idle]. rewrite run_app, run_drag_moves.
  cbn [fst snd run]. rewrite step_up. cbn [snd drag drag_id gridX gridY].
  rewrite (lastPreview_unmounted c _ moves Hm). cbn [fst snd List.concat].
  rewrite concat_app.
  assert (E : List.concat (map (fun _ : Env * MouseEvent => @nil LayoutAction) moves) = []).
  { clear. induction moves; [reflexivity|exact IHmoves]. }
  rewrite E. reflexivity.
Qed.

(* ================================================================== *)
(** ** Renders and events in any order *)

Section Timing.

Variable c : Component.

Lemma atContainer_self (env : Env) : atContainer env (containerRef env) = env.
Proof. destruct env; reflexivity. Qed.

(** A listener registered by the render that shows the current state is
    the handler of [step]. *)
Lemma handleMoveFrom_same_render (env : Env) (st : GestureState) (e : MouseEvent) :
  handleMoveFromOf c env (drag st) st e = handleMoveOf c env st e.
Proof. destruct c; reflexivity. Qed.

Lemma handleMoveFrom_preview (env : Env) (d : DragState) (cur : GestureState)
  (e : MouseEvent) :
  handleMoveFromOf c env (Some d) cur e =
  match computedPreview c env e with
  | Some p => setPreview (fst p) (snd p) cur
  | None => cur
  end.
Proof.
  destruct c;
    cbv [handleMoveFromOf Fluid.handleMoveFrom Fixed.handleMoveFrom computedPreview];
    destruct (containerRef env); reflexivity.
Qed.

Lemma handleResize_reads_resize (env : Env) (d d' : option DragState)
  (r : option ResizeState) (e : MouseEvent) :
  handleResizeOf c env (mkGesture d r) e = handleResizeOf c env (mkGesture d' r) e.
Proof. destruct c; reflexivity. Qed.

(** A render followed by an event is [step]. *)
Lemma rendered_then_event (env : Env) (ev : Event) (t : Timed) :
  let t1 := fst (timedStep c (Rendered env) t) in
  current (fst (timedStep c (Pointer (containerRef env) ev) t1))
  = fst (stepOf c env ev (current t)) /\
  snd (timedStep c (Pointer (containerRef env) ev) t1)
  = snd (stepOf c env ev (current t)).
Proof.
  cbn [timedStep fst]. destruct t as [[d r] sh dl rl]. cbn [current].
  destruct ev as [e item|e item|e|].
  - cbn [timedStep shown current fst snd]. rewrite step_down_panel_cases.
    split; reflexivity.
  - cbn [timedStep shown current fst snd]. rewrite step_down_handle_cases.
    split; reflexivity.
  - cbn [timedStep shown current dragListener resizeListener drag resize fst snd].
    rewrite atContainer_self, step_move. cbn [drag resize fst snd]. split.
    + destruct d as [d|]; [|reflexivity].
      apply (handleMoveFrom_same_render env (mkGesture (Some d) r) e).
    + destruct r; reflexivity.
  - cbn [timedStep shown current dragListener resizeListener drag resize].
    rewrite step_up. cbn [drag fst snd].
    destruct d as [d|], r as [r|]; split; reflexivity.
Qed.

(** [run] is the run in which a render comes before every event. *)
Lemma timedRun_rendered_first (evs : list (Env * Event)) :
  forall t : Timed,
    current (fst (timedRun c (renderedFirst evs) t))
    = fst (run c evs (current t)) /\
    timedDispatched c (renderedFirst evs) t = dispatched c evs (current t).
Proof.
  unfold timedDispatched.
  induction evs as [|[env ev] evs IH]; intros t.
  - split; reflexivity.
  - destruct (rendered_then_event env ev t) as [Ec Ea].
    cbn zeta in Ec, Ea.
    unfold renderedFirst. cbn [flat_map app fst snd]. fold (renderedFirst evs).
    cbn [timedRun].
    destruct (timedStep c (Rendered env) t) as [t1 a1] eqn:E1.
    assert (A1 : a1 = []) by (cbn [timedStep] in E1; injection E1; auto).
    cbn [fst] in Ec, Ea.
    destruct (timedStep c (Pointer (containerRef env) ev) t1) as [t2 a2] eqn:E2.
    cbn [fst snd] in Ec, Ea.
    destruct (IH t2) as [IHc IHa].
    destruct (timedRun c (renderedFirst evs) t2) as [t3 log] eqn:E3.
    cbn [fst snd] in *.
    unfold dispatched in *. cbn [run].
    destruct (stepOf c env ev (current t)) as [st1 acts].
    cbn [fst snd] in *. subst.
    destruct (run c evs (current t2)) as [st2 log2]. cbn [fst snd] in *.
    split; [exact IHc|]. cbn [List.concat app]. rewrite IHa. reflexivity.
Qed.

(** The pointer-up dispatches the position held by the [drag] its
    listener was registered with, whatever the state cell holds. *)
Lemma pointer_up_reads_the_listener_drag (live : option DOMRect)
  (t : Timed) (d : DragState) :
  dragListener t = Some d ->
  snd (timedStep c (Pointer live MouseUp) t)
  = [Move (drag_id d) (gridX d) (gridY d)].
Proof.
  intros H. cbn [timedStep]. rewrite H. cbn [handleMoveEnd drag].
  destruct (resizeListener t); reflexivity.
Qed.

End Timing.

(** C2.  The drag of Scenario A (item [a] at (2, 1), 100-pixel cells,
    twelve columns): pointer-down on the panel, a render, a pointer-move
    to the pixel (400, 300).  The tick computes the preview (4, 3) and
    writes it into the state.  A pointer-up that arrives before the next
    render is handled by the listener registered with the [drag] of the
    render before the tick, and dispatches the move to (2, 1), not to the
    last computed preview, in both components; with a render between the
    tick and the pointer-up the move is to (4, 3). *)
Theorem pointer_up_before_the_next_render_commits_a_stale_preview :
  let env := gridEnv 12 [itemA] in
  let live := containerRef env in
  let down := Pointer live (PanelMouseDown (pointer 250 150) itemA) in
  let move := Pointer live (MouseMove (pointer 400 300)) in
  let up := Pointer live MouseUp in
  drag (current (fst (timedRun FluidLayout [down; Rendered env; move]
                        (mountedWith env))))
  = Some (mkDrag (id itemA) (int 250) (int 150) (int 4) (int 3)) /\
  snd (timedRun FluidLayout [down; Rendered env; move; up] (mountedWith env))
  = [[]; []; []; [Move (id itemA) (int 2) (int 1)]] /\
  snd (timedRun FixedLayout [down; Rendered env; move; up] (mountedWith env))
  = [[]; []; []; [Move (id itemA) (int 2) (int 1)]] /\
  snd (timedRun FluidLayout [down; Rendered env; move; Rendered env; up]
         (mountedWith env))
  = [[]; []; []; []; [Move (id itemA) (int 4) (int 3)]].
Proof. cbv zeta. repeat split; reflexivity. Qed.

Section Provenance.

Variables (c : Component) (env0 : Env) (all : list TimedEvent).

Lemma timedStep_traced (ev : TimedEvent) (t : Timed) :
  In ev all -> tracedState c env0 all t ->
  tracedState c env0 all (fst (timedStep c ev t)) /\
  forall i ax ay,
    In (Move i ax ay) (snd (timedStep c ev t)) ->
    capturedIn all i (ax, ay) \/ computedIn c env0 all (ax, ay).
Proof.
  intros Hev (Hcur & Hlis & Hshown).
  destruct ev as [env|live [e item|e item|e|]].
  - (* render *)
    cbn [timedStep fst snd]. split; [|intros i ax ay []].
    repeat split; cbn [current dragListener shown]; auto.
  - (* pointer-down on a panel *)
    cbn [timedStep fst snd]. split; [|intros i ax ay []].
    repeat split; cbn [current dragListener shown]; auto.
    intros d Hd. unfold onPanelMouseDown in Hd.
    destruct (negb (draggable (shown t)) || negb (button e =? 0)%Z);
      [apply Hcur, Hd|].
    cbn [drag] in Hd. injection Hd as <-. left.
    exists live, e, item. cbn [drag_id gridX gridY]. auto.
  - (* pointer-down on a resize handle *)
    cbn [timedStep fst snd]. split; [|intros i ax ay []].
    repeat split; cbn [current dragListener shown]; auto.
    intros d Hd. unfold onResizeHandleMouseDown in Hd.
    destruct (negb (resizable (shown t)) || negb (button e =? 0)%Z);
      apply Hcur, Hd.
  - (* pointer-move *)
    cbn [timedStep fst snd]. split.
    + repeat split; cbn [current dragListener shown]; auto.
      intros d Hd. destruct (dragListener t) as [dl|]; [|apply Hcur, Hd].
      rewrite handleMoveFrom_preview in Hd.
      destruct (computedPreview c (atContainer (shown t) live) e) as [p|] eqn:Ep;
        [|apply Hcur, Hd].
      unfold setPreview in Hd.
      destruct (drag (current t)) as [prev|]; [|discriminate].
      cbn [drag] in Hd. injection Hd as <-. right.
      exists (shown t), live, e. cbn [gridX gridY].
      repeat split; try assumption. destruct p; exact Ep.
    + intros i ax ay Hin.
      destruct (resizeListener t) as [r|]; [|destruct Hin].
      rewrite handleResize_tick in Hin.
      destruct (resizeTick_shape c (resize_id r) (atContainer (shown t) live) e)
        as [E|(rw & rh & E)]; rewrite E in Hin.
      * destruct Hin.
      * destruct Hin as [Hin|[]]. discriminate Hin.
  - (* pointer-up *)
    cbn [timedStep].
    destruct (dragListener t) as [dl|] eqn:El.
    + cbn [handleMoveEnd drag resize].
      destruct (resizeListener t); cbn [fst snd]; split.
      * repeat split; cbn [current dragListener shown handleResizeEnd drag];
          auto; intros d Hd; discriminate Hd.
      * intros i ax ay [Hin|[]]. injection Hin as <- <- <-. apply Hlis. reflexivity.
      * repeat split; cbn [current dragListener shown handleResizeEnd drag];
          auto; intros d Hd; discriminate Hd.
      * intros i ax ay [Hin|[]]. injection Hin as <- <- <-. apply Hlis. reflexivity.
    + destruct (resizeListener t); cbn [fst snd]; split;
        try (intros i ax ay []);
        repeat split; cbn [current dragListener shown handleResizeEnd drag];
        auto; intros d Hd; try discriminate Hd; apply Hcur, Hd.
Qed.

Lemma timedRun_traced (evs : list TimedEvent) :
  forall t : Timed,
    incl evs all -> tracedState c env0 all t ->
    forall i ax ay,
      In (Move i ax ay) (timedDispatched c evs t) ->
      capturedIn all i (ax, ay) \/ computedIn c env0 all (ax, ay).
Proof.
  induction evs as [|ev evs IH]; intros t Hincl Hinv i ax ay Hin.
  - destruct Hin.
  - assert (Hev : In ev all) by (apply Hincl; left; reflexivity).
    destruct (timedStep_traced ev t Hev Hinv) as [Hinv1 Hact].
    unfold timedDispatched in Hin. cbn [timedRun] in Hin.
    destruct (timedStep c ev t) as [t1 acts]. cbn [fst snd] in *.
    destruct (timedRun c evs t1) as [t2 log] eqn:Er.
    cbn [snd List.concat] in Hin. apply in_app_or in Hin.
    destruct Hin as [Hin|Hin].
    + apply (Hact _ _ _ Hin).
    + apply (IH t1); [intros x' Hx; apply Hincl; right; exact Hx|exact Hinv1|].
      unfold timedDispatched. rewrite Er. exact Hin.
Qed.

Lemma mountedWith_traced : tracedState c env0 all (mountedWith env0).
Proof.
  repeat split; cbn; auto; intros d Hd; discriminate Hd.
Qed.

End Provenance.

(** Whatever the order of renders and events, the position of a
    dispatched move was captured at a pointer-down on the panel of the
    item with the action's id, or computed by a pointer-move tick. *)
Lemma dispatched_move_provenance (c : Component) (env0 : Env)
  (evs : list TimedEvent) (i : string) (ax ay : number) :
  In (Move i ax ay) (timedDispatched c evs (mountedWith env0)) ->
  capturedIn evs i (ax, ay) \/ computedIn c env0 evs (ax, ay).
Proof.
  apply (timedRun_traced c env0 evs evs).
  - apply incl_refl.
  - apply mountedWith_traced.
Qed.

Lemma computedPreview_in_range (c : Component) (env : Env) (e : MouseEvent)
  (p : number * number) :
  wellConditioned c env e ->
  computedPreview c env e = Some p ->
  finite (fst p) /\ finite (snd p) /\
  JS.le (int 0) (fst p) = true /\
  JS.le (fst p) (JS.sub (columnsOf c env) (int 1)) = true /\
  JS.le (int 0) (snd p) = true.
Proof.
  unfold wellConditioned, computedPreview.
  destruct (containerRef env) as [rect|]; [|discriminate].
  intros (Fx & Fy & Fl & Ft & (cw & Vcw & Ncw) & (ch & Vch & Nch) & (cx & Vcx & Lcx)) E.
  injection E as <-. cbn [fst snd].
  destruct (finite_isval _ Fx) as [px Vpx]. destruct (finite_isval _ Fy) as [py Vpy].
  destruct (finite_isval _ Fl) as [l Vl]. destruct (finite_isval _ Ft) as [t Vt].
  assert (Vx := pixelToGridX_val _ _ _ cw cx (px - l) Vcw Ncw Vcx
                  (isval_sub _ _ _ _ Vpx Vl)).
  assert (Vy := pixelToGridY_val _ _ ch (py - t) Vch Nch
                  (isval_sub _ _ _ _ Vpy Vt)).
  split; [apply (isval_finite _ _ Vx)|].
  split; [apply (isval_finite _ _ Vy)|].
  split; [apply (le_true _ _ _ _ (isval_int 0) Vx), Q.le_max_l|].
  split; [|apply (le_true _ _ _ _ (isval_int 0) Vy), Q.le_max_l].
  apply (le_true _ _ _ _ Vx (isval_sub _ _ _ _ Vcx (isval_int 1))).
  change (inject_Z 1) with 1.
  apply Q.max_lub; [lra | apply Q.le_min_l].
Qed.

(** C4, amended.  (i) A resize pointer-move tick with an active resize,
    a mounted container, the item in the snapshot, finite pointer and
    container coordinates, a finite non-zero cell width and cell height,
    finite [columns], and finite [item.x], [item.y] with
    [item.x + 1 <= columns] dispatches exactly one resize action, whose
    [w] and [h] are finite with [1 <= w], [item.x + w <= columns] and
    [1 <= h].  (ii) From the first render on, whatever the order of
    renders and pointer events, every dispatched move action carries
    either the position [(item.x, item.y)] captured, unclamped, at a
    pointer-down on the panel of the item with the action's id, or a
    position computed by a pointer-move tick; if every pointer-move of
    the run, met with the props of the first render or of any render of
    the run, finds finite coordinates, finite non-zero cell sizes and
    finite [columns >= 1] whenever the container is mounted
    ([wellConditioned]), a position of the second kind is finite with
    [0 <= x], [0 <= y] and [x <= columns - 1] for the [columns] of one
    of these renders. *)
Theorem dispatched_fields_in_range :
  (forall (c : Component) (env : Env) (st : GestureState) (e : MouseEvent)
          (r : ResizeState) (rect : DOMRect) (item : GridItem)
          (cw ch cx ix : Q),
      resize st = Some r ->
      containerRef env = Some rect ->
      findItem (resize_id r) (items (snapshot env)) = Some item ->
      finite (clientX e) -> finite (clientY e) ->
      finite (left rect) -> finite (top rect) ->
      isval (cellWidthEff c env rect) cw -> ~ cw == 0 ->
      isval (cellHeight env) ch -> ~ ch == 0 ->
      isval (columnsOf c env) cx ->
      isval (x item) ix -> finite (y item) -> ix + 1 <= cx ->
      exists rw rh : number,
        handleResizeOf c env st e = [Resize (resize_id r) rw rh] /\
        finite rw /\ finite rh /\
        JS.le (int 1) rw = true /\
        JS.le (JS.add (x item) rw) (columnsOf c env) = true /\
        JS.le (int 1) rh = true) /\
  (forall (c : Component) (env0 : Env) (evs : list TimedEvent)
          (i : string) (ax ay : number),
      (forall env live e,
          env = env0 \/ In (Rendered env) evs ->
          In (Pointer live (MouseMove e)) evs ->
          wellConditioned c (atContainer env live) e) ->
      In (Move i ax ay) (timedDispatched c evs (mountedWith env0)) ->
      capturedIn evs i (ax, ay) \/
      (finite ax /\ finite ay /\
       JS.le (int 0) ax = true /\ JS.le (int 0) ay = true /\
       exists env, (env = env0 \/ In (Rendered env) evs) /\
                   JS.le ax (JS.sub (columnsOf c env) (int 1)) = true)).
Proof.
  split.
  - intros c env [d r0] e r rect item cw ch cx ix Hr Hrect Hfind
           Hpx Hpy Hl Ht Hcw Hcwne Hch Hchne Hcx Vix Hiy Hroom.
    cbn [resize] in Hr. subst r0.
    destruct (finite_isval _ Hpx) as [px Vpx].
    destruct (finite_isval _ Hpy) as [py Vpy].
    destruct (finite_isval _ Hl) as [l Vl].
    destruct (finite_isval _ Ht) as [t Vt].
    destruct (finite_isval _ Hiy) as [iy Viy].
    assert (Vw := computedWidth_val c env rect item e cw cx ix px l
                    Hcw Hcwne Hcx Vix Vpx Vl).
    assert (Vh := computedHeight_val c env rect item e ch iy py t
                    Hch Hchne Viy Vpy Vt).
    exists (fst (computedSize c env rect item e)),
           (snd (computedSize c env rect item e)).
    split; [rewrite handleResize_tick; apply resizeTick_ready; assumption|].
    split; [apply (isval_finite _ _ Vw)|].
    split; [apply (isval_finite _ _ Vh)|].
    split; [|split].
    + apply (le_true _ _ _ _ (isval_int 1) Vw). change (inject_Z 1) with 1.
      apply Q.min_glb; [lra | apply Q.le_max_l].
    + apply (le_true _ _ _ _ (isval_add _ _ _ _ Vix Vw) Hcx).
      assert (M := Q.le_min_l (cx - ix)
                     (Qmax 1 (roundQ (Qmax cw (px - l - ix * cw) / cw)))).
      lra.
    + apply (le_true _ _ _ _ (isval_int 1) Vh). change (inject_Z 1) with 1.
      apply Q.le_max_l.
  - intros c env0 evs i ax ay Hgood Hin.
    destruct (dispatched_move_provenance c env0 evs i ax ay Hin)
      as [Hcap|(env & live & e & Henv & Hev & Ep)].
    + left. exact Hcap.
    + right.
      destruct (computedPreview_in_range c (atContainer env live) e (ax, ay)
                  (Hgood env live e Henv Hev) Ep)
        as (Fx & Fy & Lx & Ux & Ly).
      cbn [fst snd] in *.
      repeat split; try assumption.
      exists env. split; [exact Henv|].
      destruct c; exact Ux.
Qed.

(** Scenario B resized in the fluid component, and the move dispatched
    by Scenario A. *)
Lemma dispatched_fields_in_range_witness :
  (exists rw rh : number,
      handleResizeOf FluidLayout (gridEnv 4 [itemB]) resizingB (pointer 250 250)
      = [Resize (id itemB) rw rh] /\
      finite rw /\ finite rh /\
      JS.le (int 1) rw = true /\
      JS.le (JS.add (x itemB) rw) (columnsOf FluidLayout (gridEnv 4 [itemB]))
      = true /\
      JS.le (int 1) rh = true) /\
  (capturedIn scenarioA (id itemA) (int 4, int 3) \/
   (finite (int 4) /\ finite (int 3) /\
    JS.le (int 0) (int 4) = true /\ JS.le (int 0) (int 3) = true /\
    exists env, (env = gridEnv 12 [itemA] \/ In (Rendered env) scenarioA) /\
                JS.le (int 4) (JS.sub (columnsOf FluidLayout env) (int 1)) = true)).
Proof.
  split.
  - apply (proj1 dispatched_fields_in_range FluidLayout (gridEnv 4 [itemB])
             resizingB (pointer 250 250) resizeB (rectOfWidth 400) itemB
             100 100 4 0);
      try reflexivity; try exact nonzero_100.
    discriminate.
  - apply (proj2 dispatched_fields_in_range FluidLayout (gridEnv 12 [itemA])
             scenarioA).
    + intros env live e Henv Hev.
      assert (Ee : live = Some (rectOfWidth 1200) /\ e = pointer 400 300).
      { destruct Hev as [H|[H|[H|[H|[H|[]]]]]]; try discriminate H.
        injection H as <- <-. split; reflexivity. }
      destruct Ee as [-> ->].
      assert (Ev : env = gridEnv 12 [itemA]).
      { destruct Henv as [H|H]; [exact H|].
        destruct H as [H|[H|[H|[H|[H|[]]]]]]; try discriminate H;
          injection H as <-; reflexivity. }
      subst env.
      repeat split; try reflexivity.
      * exists 100. split; [reflexivity|exact nonzero_100].
      * exists 100. split; [reflexivity|exact nonzero_100].
      * exists 12. split; [reflexivity|discriminate].
    + left. reflexivity.
Defined.

(* ================================================================== *)
(** ** The further properties at concrete inputs *)

Lemma grid_conversions_yield_integers_witness :
  JS.isInteger (Fixed.pixelToGridX (int 100) (int 4) (Num (1234 # 10))) = true /\
  JS.isInteger (pixelToGridY (int 100) (Num (1234 # 10))) = true /\
  JS.isInteger (Fixed.pixelToGridW (int 100) (Num (1234 # 10))) = true /\
  JS.isInteger (pixelToGridH (int 100) (Num (1234 # 10))) = true.
Proof.
  exact (grid_conversions_yield_integers 100 (1234 # 10) 4 nonzero_100).
Defined.

(** 40 pixels left of the boundary of cell 2, cells 100 pixels wide. *)
Lemma pointer_snaps_to_nearest_cell_witness :
  JS.eqb (Fixed.pixelToGridX (int 100) (int 4) (Num (inject_Z 2 * 100 + - (40))))
         (int 2) = true /\
  JS.eqb (pixelToGridY (int 100) (Num (inject_Z 2 * 100 + - (40)))) (int 2) = true /\
  JS.eqb (Fixed.pixelToGridW (int 100) (Num (inject_Z 2 * 100 + - (40))))
         (int 2) = true /\
  JS.eqb (pixelToGridH (int 100) (Num (inject_Z 2 * 100 + - (40)))) (int 2) = true.
Proof.
  pose proof (pointer_snaps_to_nearest_cell 100 (- (40)) 4 2
                eq_refl ltac:(discriminate) ltac:(discriminate))
    as (HX & HY & HWH).
  split; [apply HX; split; discriminate|].
  split; [apply HY; discriminate|].
  apply HWH. discriminate.
Defined.

Lemma pointer_beyond_the_grid_clamps_witness :
  JS.eqb (Fixed.pixelToGridX (int 100) (int 4) (int (-30))) (int 0) = true /\
  JS.eqb (pixelToGridY (int 100) (int (-30))) (int 0) = true /\
  JS.eqb (Fixed.pixelToGridW (int 100) (int (-30))) (int 1) = true /\
  JS.eqb (pixelToGridH (int 100) (int (-30))) (int 1) = true /\
  JS.eqb (Fixed.pixelToGridX (int 100) (int 4) (int 900))
         (JS.sub (int 4) (int 1)) = true.
Proof.
  pose proof (pointer_beyond_the_grid_clamps 100 (inject_Z (-30)) 4
                eq_refl ltac:(discriminate)) as (H0 & H1 & _).
  pose proof (pointer_beyond_the_grid_clamps 100 (inject_Z 900) 4
                eq_refl ltac:(discriminate)) as (_ & _ & HL).
  specialize (H0 ltac:(discriminate)). specialize (H1 ltac:(discriminate)).
  destruct H0 as [A B]. destruct H1 as [C D].
  split; [exact A|]. split; [exact B|]. split; [exact C|].
  split; [exact D|]. apply HL. discriminate.
Defined.

Lemma size_and_row_conversions_monotone_witness :
  JS.le (pixelToGridY (int 100) (int 130)) (pixelToGridY (int 100) (int 260)) = true /\
  JS.le (Fixed.pixelToGridW (int 100) (int 130))
        (Fixed.pixelToGridW (int 100) (int 260)) = true /\
  JS.le (pixelToGridH (int 100) (int 130)) (pixelToGridH (int 100) (int 260)) = true.
Proof.
  apply (size_and_row_conversions_monotone 100 (inject_Z 130) (inject_Z 260)).
  - reflexivity.
  - discriminate.
Defined.

(** Scenario B with the pointer above and left of the item: one cell. *)
Lemma resize_saturates_witness :
  exists rw rh : number,
    handleResizeOf FluidLayout (gridEnv 4 [itemB]) resizingB (pointer (-50) 20)
    = [Resize (id itemB) rw rh] /\
    JS.eqb rw (int 1) = true /\ JS.eqb rh (int 1) = true.
Proof.
  pose proof (resize_saturates_at_one_cell_and_at_the_last_column
                FluidLayout (gridEnv 4 [itemB]) resizingB (pointer (-50) 20)
                resizeB (rectOfWidth 400) itemB
                100 100 (inject_Z (-50)) (inject_Z 20) 0 0 4 0 0
                eq_refl eq_refl eq_refl) as H.
  destruct H as (rw & rh & E & A & B & _); try reflexivity.
  { discriminate. }
  exists rw, rh. split; [exact E|].
  split; [apply A|apply B]; discriminate.
Defined.

Lemma disabled_or_secondary_pointer_down_starts_nothing_witness :
  run FluidLayout
    [(viewEnv, PanelMouseDown (pointer 250 150) itemA);
     (viewEnv, MouseMove (pointer 400 300));
     (viewEnv, MouseUp);
     (gridEnv 12 [itemA], ResizeHandleMouseDown secondaryButton itemA);
     (gridEnv 12 [itemA], MouseMove (pointer 400 300));
     (gridEnv 12 [itemA], MouseUp)] Idle
  = (Idle, [[]; []; []; []; []; []]).
Proof.
  exact (disabled_or_secondary_pointer_down_starts_nothing FluidLayout
           [(viewEnv, PanelMouseDown (pointer 250 150) itemA);
            (viewEnv, MouseMove (pointer 400 300));
            (viewEnv, MouseUp);
            (gridEnv 12 [itemA], ResizeHandleMouseDown secondaryButton itemA);
            (gridEnv 12 [itemA], MouseMove (pointer 400 300));
            (gridEnv 12 [itemA], MouseUp)] eq_refl).
Defined.

Lemma each_event_dispatches_at_most_its_own_action_witness :
  snd (stepOf FixedLayout (gridEnv 12 [itemA]) MouseUp draggingA)
  = [Move (id itemA) (int 4) (int 3)] /\
  MouseUp = MouseUp /\
  exists d, drag draggingA = Some d /\ id itemA = drag_id d /\
            int 4 = gridX d /\ int 3 = gridY d.
Proof.
  apply (each_event_dispatches_at_most_its_own_action FixedLayout
           (gridEnv 12 [itemA]) MouseUp draggingA
           (Move (id itemA) (int 4) (int 3))).
  left. reflexivity.
Defined.

Lemma pointer_up_ends_every_gesture_witness :
  run FixedLayout
    ((gridEnv 12 [itemA], MouseUp)
       :: [(gridEnv 12 [itemA], MouseMove (pointer 700 300));
           (gridEnv 12 [itemA], MouseUp)])
    (mkGesture (drag draggingA) (resize resizingB))
  = (Idle, [[Move (id itemA) (int 4) (int 3)]; []; []]).
Proof.
  exact (pointer_up_ends_every_gesture FixedLayout (gridEnv 12 [itemA])
           (mkGesture (drag draggingA) (resize resizingB))
           [(gridEnv 12 [itemA], MouseMove (pointer 700 300));
            (gridEnv 12 [itemA], MouseUp)] eq_refl).
Defined.

Lemma dispatched_ids_come_from_pointer_downs_witness :
  In (actionId (Move (id itemA) (int 4) (int 3)))
     (panelDowns [(gridEnv 12 [itemA], PanelMouseDown (pointer 250 150) itemA);
                  (gridEnv 12 [itemA], MouseMove (pointer 400 300));
                  (gridEnv 12 [itemA], MouseUp)]).
Proof.
  apply (dispatched_ids_come_from_pointer_downs FluidLayout
           [(gridEnv 12 [itemA], PanelMouseDown (pointer 250 150) itemA);
            (gridEnv 12 [itemA], MouseMove (pointer 400 300));
            (gridEnv 12 [itemA], MouseUp)]
           (Move (id itemA) (int 4) (int 3))).
  left. reflexivity.
Defined.

Lemma grab_point_does_not_matter_witness :
  run FluidLayout
    ((gridEnv 12 [itemA], PanelMouseDown (pointer 250 150) itemA)
       :: asMoves [(gridEnv 12 [itemA], pointer 400 300)]
       ++ [(gridEnv 12 [itemA], MouseUp)]) Idle
  = run FluidLayout
      ((gridEnv 12 [itemA], PanelMouseDown (pointer 299 199) itemA)
         :: asMoves [(gridEnv 12 [itemA], pointer 400 300)]
         ++ [(gridEnv 12 [itemA], MouseUp)]) Idle /\
  run FluidLayout
    ((gridEnv 4 [itemB], ResizeHandleMouseDown (pointer 195 195) itemB)
       :: asMoves [(gridEnv 4 [itemB], pointer 250 250)]
       ++ [(gridEnv 4 [itemB], MouseUp)]) Idle
  = run FluidLayout
      ((gridEnv 4 [itemB], ResizeHandleMouseDown (pointer 399 99) itemBwide)
         :: asMoves [(gridEnv 4 [itemB], pointer 250 250)]
         ++ [(gridEnv 4 [itemB], MouseUp)]) Idle.
Proof.
  split.
  - apply (grab_point_does_not_matter FluidLayout (gridEnv 12 [itemA])
             (pointer 250 150) (pointer 299 199) itemA itemA
             [(gridEnv 12 [itemA], pointer 400 300)] (gridEnv 12 [itemA])
             eq_refl eq_refl).
    reflexivity.
  - apply (grab_point_does_not_matter FluidLayout (gridEnv 4 [itemB])
             (pointer 195 195) (pointer 399 99) itemB itemBwide
             [(gridEnv 4 [itemB], pointer 250 250)] (gridEnv 4 [itemB])
             eq_refl eq_refl); reflexivity.
Defined.

Lemma drag_ticks_without_container_witness :
  dispatched FixedLayout
    ((gridEnv 12 [itemA], PanelMouseDown (pointer 250 150) itemA)
       :: asMoves [(unmountedEnv, pointer 400 300); (unmountedEnv, pointer 500 300)]
       ++ [(gridEnv 12 [itemA], MouseUp)]) Idle
  = [Move (id itemA) (x itemA) (y itemA)].
Proof.
  exact (drag_ticks_without_container_keep_the_captured_position FixedLayout
           (gridEnv 12 [itemA]) (pointer 250 150) itemA
           [(unmountedEnv, pointer 400 300); (unmountedEnv, pointer 500 300)]
           (gridEnv 12 [itemA]) eq_refl eq_refl eq_refl).
Defined.

Lemma fluid_component_agrees_with_fixed_witness :
  Fluid.step (gridEnv 4 [itemB]) (MouseMove (pointer 250 250)) resizingB
  = Fixed.step (gridEnv 4 [itemB]) (MouseMove (pointer 250 250)) resizingB.
Proof.
  apply fluid_component_agrees_with_fixed_at_grid_width; try reflexivity.
  intros rect H. injection H as <-. reflexivity.
Defined.

(** Item [a] while it is dragged: its placeholder and its panel. *)
Lemma container_height_covers_committed_boxes_witness :
  let env := gridEnv 12 [itemA; itemB] in
  JS.le (JS.mul (JS.add (y itemA) (h itemA)) (cellHeight env)) (totalH env)
  = true /\
  Forall (fun b => committedBox draggingA itemA b = true ->
                   JS.le (lengthValue (cssTop b)) (totalH env) = true)
         (renderItemOf FluidLayout env draggingA itemA) /\
  Forall (fun b => JS.le (lengthValue (cssHeight b)) (totalH env) = true)
         (renderItemOf FluidLayout env draggingA itemA).
Proof.
  intros env.
  pose proof (container_height_covers_committed_boxes FluidLayout env
                draggingA itemA 100 1 1
                eq_refl ltac:(discriminate) ltac:(repeat constructor)
                ltac:(left; reflexivity) eq_refl eq_refl) as (A & B & C).
  split; [exact A|]. split; apply Forall_forall; intros b Hb.
  - intros Hc. apply (B ltac:(discriminate) b Hb Hc).
  - apply (C ltac:(discriminate) b Hb).
Defined.

Lemma fixed_container_width_covers_committed_boxes_witness :
  let env := gridEnv 12 [itemA; itemB] in
  Forall (fun b =>
            JS.le (JS.mul (JS.add (x itemA) (w itemA)) (cellWidth env))
                  (Fixed.totalW env) = true /\
            JS.le (int 0) (lengthValue (cssLeft b)) = true /\
            JS.le (lengthValue (cssLeft b)) (Fixed.totalW env) = true /\
            JS.le (int 0) (lengthValue (cssWidth b)) = true /\
            JS.le (lengthValue (cssWidth b)) (Fixed.totalW env) = true)
         (Fixed.renderItem env Idle itemA).
Proof.
  intros env. apply Forall_forall. intros b Hb.
  apply (fixed_container_width_covers_committed_boxes
           env Idle itemA b 100 12 2 1);
    try reflexivity; try discriminate.
  - exact Hb.
  - destruct Hb as [<-|[]]. reflexivity.
Defined.

Lemma fluid_committed_boxes_stay_within_full_width_witness :
  Forall (fun b =>
            JS.le (Fluid.colPct overrideEnv (JS.add (x itemB) (w itemB)))
                  (int 100) = true /\
            JS.le (int 0) (lengthValue (cssLeft b)) = true /\
            JS.le (lengthValue (cssLeft b)) (int 100) = true /\
            JS.le (int 0) (lengthValue (cssWidth b)) = true /\
            JS.le (lengthValue (cssWidth b)) (int 100) = true)
         (Fluid.renderItem overrideEnv draggingA itemB).
Proof.
  apply Forall_forall. intros b Hb.
  apply (fluid_committed_boxes_stay_within_full_width
           overrideEnv draggingA itemB b 4 0 2);
    try reflexivity; try discriminate.
  - exact Hb.
  - destruct Hb as [<-|[]]. reflexivity.
Defined.

Lemma other_items_render_as_when_idle_witness :
  renderItemOf FixedLayout (gridEnv 12 [itemA; itemB]) draggingA itemB
  = renderItemOf FixedLayout (gridEnv 12 [itemA; itemB]) Idle itemB.
Proof.
  apply other_items_render_as_when_idle. reflexivity.
Defined.

(** A commit of another store before the first effect, then a commit of
    the hook's store: the hook is up to date.  A commit of the hook's
    store before the first effect: the hook keeps the state of its first
    render ([snapshotOne]) while the store holds [snapshotTwo]. *)
Lemma legacy_hook_misses_only_commits_witness :
  render (snd (hookRun LegacyHook (twoStores, mountHook twoStores 0%nat)
                 ([Commit 1%nat snapshotOne]
                    ++ Rerender 0%nat
                    :: [Rerender 0%nat; Commit 0%nat snapshotTwo])))
  = fst (hookRun LegacyHook (twoStores, mountHook twoStores 0%nat)
           ([Commit 1%nat snapshotOne]
              ++ Rerender 0%nat
              :: [Rerender 0%nat; Commit 0%nat snapshotTwo])) 0%nat /\
  render (snd (hookRun LegacyHook (twoStores, mountHook twoStores 0%nat)
                 ([Commit 0%nat snapshotTwo]
                    ++ Rerender 0%nat
                    :: [Commit 1%nat snapshotOne; Rerender 0%nat])))
  = twoStores 0%nat.
Proof.
  split.
  - exact (proj1 (legacy_hook_misses_only_commits_before_its_first_effect
                    twoStores 0%nat [Commit 1%nat snapshotOne]
                    [Rerender 0%nat; Commit 0%nat snapshotTwo]
                    eq_refl eq_refl) eq_refl).
  - exact (proj2 (legacy_hook_misses_only_commits_before_its_first_effect
                    twoStores 0%nat [Commit 0%nat snapshotTwo]
                    [Commit 1%nat snapshotOne; Rerender 0%nat]
                    eq_refl eq_refl) eq_refl).
Defined.

